(** * mkpr: batch pull-request creation (internal/mkpr/make_pull_request.go)

    Shallow embedding of the package [mkpr] and of the properties its
    specification states.

    The program talks to three things it does not own: the GitHub API
    (through go-github's client), the local file system (ioutil.ReadFile)
    and the wall clock (time.Now).  They are modelled as oracles that see
    the whole history of calls made so far, so that any deterministic
    behaviour of the outside world is covered; every call is appended to
    that history, which is the state threaded through the code.

    Go pointers that may be nil are [option]s; dereferencing nil is a
    panic, which the monad carries as the outcome [None]. *)

From Stdlib Require Import String Ascii List ZArith Bool Lia.
Import ListNotations.
Open Scope list_scope.
Open Scope string_scope.

(** ** Errors *)

(** Go [error] values, as far as the package builds or inspects them. *)
Inductive error : Type :=
| errors_New (msg : string)                  (* errors.New(msg), and opaque library errors *)
| fmt_Errorf (msg : string)                  (* fmt.Errorf without %w: formatted text only *)
| fmt_Errorf_w (pre : string) (e : error)    (* fmt.Errorf(pre + ": %w", e) *)
| PathError (op path : string) (e : error).  (* *os.PathError, what ioutil.ReadFile returns *)

(** [err.Error()] *)
Fixpoint Error (e : error) : string :=
  match e with
  | errors_New m => m
  | fmt_Errorf m => m
  | fmt_Errorf_w pre e' => pre ++ ": " ++ Error e'
  | PathError op path e' => op ++ " " ++ path ++ ": " ++ Error e'
  end.

(** [errors.Unwrap] *)
Definition Unwrap (e : error) : option error :=
  match e with
  | fmt_Errorf_w _ e' => Some e'
  | PathError _ _ e' => Some e'
  | _ => None
  end.

(** ** go-github data (the fields of the library's structs; pointers are options) *)

Definition Time := Z.

Record User := mkUser {
  User_Login : option string;
  User_Name  : option string;
  User_Email : option string
}.

(** [u.GetName()] and [u.GetEmail()]: nil-safe getters. *)
Definition GetName (u : option User) : string :=
  match u with
  | Some u' => match User_Name u' with Some n => n | None => "" end
  | None => ""
  end.

Definition GetEmail (u : option User) : string :=
  match u with
  | Some u' => match User_Email u' with Some n => n | None => "" end
  | None => ""
  end.

Record GitObject := mkGitObject {
  GitObject_Type : option string;
  GitObject_SHA  : option string;
  GitObject_URL  : option string
}.

Record Reference := mkReference {
  Reference_Ref    : option string;
  Reference_URL    : option string;
  Reference_Object : option GitObject;
  Reference_NodeID : option string
}.

Record TreeEntry := mkTreeEntry {
  TreeEntry_SHA     : option string;
  TreeEntry_Path    : option string;
  TreeEntry_Mode    : option string;
  TreeEntry_Type    : option string;
  TreeEntry_Size    : option Z;
  TreeEntry_Content : option string;
  TreeEntry_URL     : option string
}.

Record Tree := mkTree {
  Tree_SHA     : option string;
  Tree_Entries : list TreeEntry
}.

Record CommitAuthor := mkCommitAuthor {
  CommitAuthor_Date  : option Time;
  CommitAuthor_Name  : option string;
  CommitAuthor_Email : option string
}.

(** [github.Commit]; [Parents] is a slice of commits. *)
#[local] Unset Elimination Schemes.
Inductive Commit : Type :=
  mkCommit (SHA : option string) (Author : option CommitAuthor)
           (Committer : option CommitAuthor) (Message : option string)
           (tree : option Tree) (Parents : list Commit).
#[local] Set Elimination Schemes.

Definition Commit_SHA (c : Commit) : option string :=
  match c with mkCommit s _ _ _ _ _ => s end.
Definition Commit_Author (c : Commit) : option CommitAuthor :=
  match c with mkCommit _ a _ _ _ _ => a end.
Definition Commit_Message (c : Commit) : option string :=
  match c with mkCommit _ _ _ m _ _ => m end.
Definition Commit_Tree (c : Commit) : option Tree :=
  match c with mkCommit _ _ _ _ t _ => t end.
Definition Commit_Parents (c : Commit) : list Commit :=
  match c with mkCommit _ _ _ _ _ p => p end.

(** The assignment [c.SHA = s]. *)
Definition Commit_set_SHA (c : Commit) (s : option string) : Commit :=
  match c with mkCommit _ a k m t p => mkCommit s a k m t p end.

Record RepositoryCommit := mkRepositoryCommit {
  RepositoryCommit_SHA    : option string;
  RepositoryCommit_Commit : option Commit
}.

Record NewPullRequest := mkNewPullRequest {
  NewPullRequest_Title : option string;
  NewPullRequest_Head  : option string;
  NewPullRequest_Base  : option string;
  NewPullRequest_Body  : option string;
  NewPullRequest_MaintainerCanModify : option bool
}.

Record PullRequest := mkPullRequest {
  PullRequest_Number  : option Z;
  PullRequest_HTMLURL : option string
}.

(** [pr.GetHTMLURL()]: nil-safe getter. *)
Definition GetHTMLURL (pr : option PullRequest) : string :=
  match pr with
  | Some p => match PullRequest_HTMLURL p with Some u => u | None => "" end
  | None => ""
  end.

(** ** The outside world *)

(** One entry of the history: a call the program made, with its arguments. *)
Inductive Call : Type :=
| UsersGet (user : string)
| GitGetRef (owner repo ref : string)
| GitCreateRef (owner repo : string) (newRef : option Reference)
| GitCreateTree (owner repo baseTree : string) (entries : list TreeEntry)
| ReposGetCommit (owner repo sha : string)
| GitCreateCommit (owner repo : string) (commit : Commit)
| GitUpdateRef (owner repo : string) (ref : Reference) (force : bool)
| PullRequestsCreate (owner repo : string) (pull : NewPullRequest)
| FileRead (filename : string).

(** Newest call first. *)
Definition History := list Call.

(** A Go result pair [(value, err)]; [err = None] is a nil error. *)
Definition result (A : Type) : Type := (A * option error)%type.

(** go-github's [*github.Client]: what each service method answers, given
    the calls made before it. *)
Record Client := mkClient {
  Users_Get           : History -> string -> result (option User);
  Git_GetRef          : History -> string -> string -> string -> result (option Reference);
  Git_CreateRef       : History -> string -> string -> option Reference -> result (option Reference);
  Git_CreateTree      : History -> string -> string -> string -> list TreeEntry -> result (option Tree);
  Repositories_GetCommit : History -> string -> string -> string -> result (option RepositoryCommit);
  Git_CreateCommit    : History -> string -> string -> Commit -> result (option Commit);
  Git_UpdateRef       : History -> string -> string -> Reference -> bool -> result (option Reference);
  PullRequests_Create : History -> string -> string -> NewPullRequest -> result (option PullRequest)
}.

(** The machine the tool runs on: file contents and clock.  A failed read
    reports the failing operation ("open" or "read") and its cause;
    ioutil.ReadFile wraps them in a [*PathError] carrying the file name. *)
Record Host := mkHost {
  fs_read  : History -> string -> string * option (string * error);
  time_Now : History -> Time
}.

(** ** The monad: state passing with panics *)

Definition M (S A : Type) : Type := S -> option A * S.

Definition ret {S A} (a : A) : M S A := fun s => (Some a, s).

Definition panic {S A} : M S A := fun s => (None, s).

Definition bind {S A B} (m : M S A) (k : A -> M S B) : M S B :=
  fun s => match m s with
           | (Some a, s') => k a s'
           | (None, s') => (None, s')
           end.

Declare Scope go_scope.
Delimit Scope go_scope with go.
Notation "x <- m ;; k" := (bind m (fun x => k))
  (at level 61, m at next level, right associativity) : go_scope.
Notation "' p <- m ;; k" := (bind m (fun p => k))
  (at level 61, p pattern, m at next level, right associativity) : go_scope.
Open Scope go_scope.

(** A call: ask the oracle with the history so far, then record the call. *)
Definition call {A} (c : Call) (answer : History -> A) : M History A :=
  fun h => (Some (answer h), c :: h).

(** Dereferencing a pointer. *)
Definition deref {S A} (p : option A) : M S A :=
  match p with
  | Some a => ret a
  | None => panic
  end.

(** ** Package strings *)

(** [strings.HasPrefix(s, prefix)] *)
Fixpoint HasPrefix (s prefix : string) : bool :=
  match prefix with
  | EmptyString => true
  | String p prefix' =>
      match s with
      | EmptyString => false
      | String c s' => Ascii.eqb c p && HasPrefix s' prefix'
      end
  end.

(** The scan of [strings.Split] for a non-empty separator: [cur] is the
    segment being collected, [skip] the number of bytes of a separator
    just matched that are still to be passed over.  Matches are taken
    left to right and do not overlap. *)
Fixpoint split_scan (sep : string) (skip : nat) (cur : string) (s : string) : list string :=
  match s with
  | EmptyString => [cur]
  | String c s' =>
      match skip with
      | S k => split_scan sep k cur s'
      | O =>
          if HasPrefix s sep
          then cur :: split_scan sep (String.length sep - 1) EmptyString s'
          else split_scan sep O (cur ++ String c EmptyString) s'
      end
  end.

(** An empty separator explodes the string (byte by byte here). *)
Fixpoint explode (s : string) : list string :=
  match s with
  | EmptyString => []
  | String c s' => String c EmptyString :: explode s'
  end.

(** [strings.Split(s, sep)] *)
Definition strings_Split (s sep : string) : list string :=
  match sep with
  | EmptyString => explode s
  | _ => split_scan sep O EmptyString s
  end.


(** ** Package mkpr: types *)

Record Destination := mkDestination {
  Repository : string;
  Base       : string
}.

Record BatchPullRequestOption := mkBatchPullRequestOption {
  CommitMessage : string;            (* commit message *)
  Subject       : string;            (* pull request subject *)
  Body          : string;            (* pull request body *)
  Destinations  : list Destination;  (* where to create the pull requests *)
  Files         : list string;       (* "local" or "local:target" *)
  authorName    : string;
  authorEmail   : string;
  Head          : string
}.

Record pullRequestCreationOptions := mkPullRequestCreationOptions {
  SourceOwner        : string;
  PullRequestOwner   : string;
  SourceRepo         : string;
  BaseBranch         : string;
  pr_CommitMessage   : string;       (* field CommitMessage *)
  CommitBranch       : string;
  PullRequestRepo    : string;
  PullRequestBranch  : string;
  PullRequestSubject : string;
  PullRequestBody    : string;
  pr_Files           : list string;  (* field Files *)
  AuthorName         : string;
  AuthorEmail        : string
}.

Record pullRequestCommand := mkPullRequestCommand {
  cmd_options : pullRequestCreationOptions;   (* field options *)
  cmd_client  : Client                        (* field client *)
}.

Record BatchPullRequestCommand := mkBatchPullRequestCommand {
  options : BatchPullRequestOption;
  client  : Client
}.

(** ** validate and the constructor *)

(** The [for _, v := range b.Destinations] of [validate]. *)
Fixpoint validate_range (head : string) (ds : list Destination) : option error :=
  match ds with
  | [] => None
  | v :: ds' =>
      if (Base v =? "")%string then
        Some (fmt_Errorf ("head branc of destination repository " ++ Repository v ++ " is empty"))
      else if (head =? Base v)%string then
        Some (fmt_Errorf ("base branch cannot be the same as head at repository " ++ Repository v))
      else validate_range head ds'
  end.

Definition validate (b : BatchPullRequestOption) : option error :=
  if (Head b =? "")%string then Some (errors_New "base branch cannot be empty")
  else validate_range (Head b) (Destinations b).

(** [tc] stands for the authenticated HTTP client; [github.NewClient(tc)]
    is the API client speaking through it. *)
Definition NewBatchPullRequestCommand (tc : Client) (opts : BatchPullRequestOption)
  : result (option BatchPullRequestCommand) :=
  match validate opts with
  | Some err => (None, Some err)
  | None => (Some (mkBatchPullRequestCommand opts tc), None)
  end.

(** ** Range *)

(** The loop of [Range] over the destinations still to visit.  The callback
    runs in the caller's state [S] (in Go it is a closure over the
    caller's variables). *)
Fixpoint Range_from {S} (b : BatchPullRequestOption)
    (f : pullRequestCreationOptions -> M S (option error))
    (ds : list Destination) : M S (option error) :=
  match ds with
  | [] => ret None
  | v :: ds' =>
      let options := {|
        SourceRepo         := Repository v;
        BaseBranch         := Base v;
        pr_CommitMessage   := CommitMessage b;
        CommitBranch       := Head b;
        PullRequestRepo    := Repository v;
        PullRequestBranch  := Base v;
        PullRequestSubject := Subject b;
        PullRequestBody    := Body b;
        pr_Files           := Files b;
        AuthorName         := authorName b;
        AuthorEmail        := authorEmail b;
        SourceOwner        := "mercadolibre";
        PullRequestOwner   := "mercadolibre" |} in
      err <- f options ;;
      match err with
      | Some e => ret (Some e)
      | None => Range_from b f ds'
      end
  end.

Definition Range {S} (b : BatchPullRequestOption)
    (f : pullRequestCreationOptions -> M S (option error)) : M S (option error) :=
  Range_from b f (Destinations b).

(** ** The four steps of a job *)

Section Job.

Variable host : Host.

(** [ioutil.ReadFile(filename)] *)
Definition ioutil_ReadFile (filename : string) : M History (result string) :=
  call (FileRead filename)
       (fun h => match fs_read host h filename with
                 | (b, None) => (b, None)
                 | (b, Some (op, cause)) => (b, Some (PathError op filename cause))
                 end).

(** [time.Now()] *)
Definition time_now : M History Time :=
  fun h => (Some (time_Now host h), h).

(** getRef returns the commit branch reference object if it exists or
    creates it from the base branch before returning it. *)
Definition getRef (f : pullRequestCommand) : M History (result (option Reference)) :=
  let o := cmd_options f in
  '(ref, err) <- call (GitGetRef (SourceOwner o) (SourceRepo o) ("refs/heads/" ++ CommitBranch o))
                      (fun h => Git_GetRef (cmd_client f) h (SourceOwner o) (SourceRepo o)
                                           ("refs/heads/" ++ CommitBranch o)) ;;
  match err with
  | None => ret (ref, None)
  | Some _ =>
      '(baseRef, err) <- call (GitGetRef (SourceOwner o) (SourceRepo o) ("refs/heads/" ++ BaseBranch o))
                              (fun h => Git_GetRef (cmd_client f) h (SourceOwner o) (SourceRepo o)
                                                   ("refs/heads/" ++ BaseBranch o)) ;;
      match err with
      | Some e => ret (None, Some (fmt_Errorf_w "unable to get base ref" e))
      | None =>
          b <- deref baseRef ;;
          bo <- deref (Reference_Object b) ;;
          let newRef := Some {|
            Reference_Ref := Some ("refs/heads/" ++ CommitBranch o);
            Reference_URL := None;
            Reference_Object := Some {| GitObject_Type := None;
                                        GitObject_SHA := GitObject_SHA bo;
                                        GitObject_URL := None |};
            Reference_NodeID := None |} in
          call (GitCreateRef "mercadolibre" (SourceRepo o) newRef)
               (fun h => Git_CreateRef (cmd_client f) h "mercadolibre" (SourceRepo o) newRef)
      end
  end.

(** getFileContent loads the local content of a file and returns the
    target name of the file in the target repository and its contents. *)
Definition getFileContent (fileArg : string) : M History (string * string * option error) :=
  let files := strings_Split fileArg ":" in
  match files with
  | [] => ret ("", "", Some (errors_New "empty files"))       (* len(files) < 1 *)
  | [f0] =>                                                   (* len(files) == 1 *)
      '(b, err) <- ioutil_ReadFile f0 ;; ret (f0, b, err)
  | f0 :: f1 :: _ =>                                          (* default *)
      '(b, err) <- ioutil_ReadFile f0 ;; ret (f1, b, err)
  end.

(** The loop of [getTree] over the files still to load; [inr err] is the
    [return nil, err] from inside the loop. *)
Fixpoint getTree_range (fileArgs : list string) (entries : list TreeEntry)
  : M History (list TreeEntry + error) :=
  match fileArgs with
  | [] => ret (inl entries)
  | fileArg :: rest =>
      '(file, content, err) <- getFileContent fileArg ;;
      match err with
      | Some e => ret (inr e)
      | None =>
          getTree_range rest
            (entries ++ [ {| TreeEntry_SHA := None;
                             TreeEntry_Path := Some file;
                             TreeEntry_Mode := Some "100644";
                             TreeEntry_Type := Some "blob";
                             TreeEntry_Size := None;
                             TreeEntry_Content := Some content;
                             TreeEntry_URL := None |} ])%list
      end
  end.

(** getTree generates the tree to commit based on the given files and the
    commit of the ref you got in getRef. *)
Definition getTree (f : pullRequestCommand) (ref : Reference) : M History (result (option Tree)) :=
  let o := cmd_options f in
  r <- getTree_range (pr_Files o) [] ;;
  match r with
  | inr e => ret (None, Some e)
  | inl entries =>
      obj <- deref (Reference_Object ref) ;;
      sha <- deref (GitObject_SHA obj) ;;
      call (GitCreateTree (SourceOwner o) (SourceRepo o) sha entries)
           (fun h => Git_CreateTree (cmd_client f) h (SourceOwner o) (SourceRepo o) sha entries)
  end.

(** pushCommit creates the commit in the given reference using the given
    tree.  The write [ref.Object.SHA = newCommit.SHA] goes through the
    pointer [ref]; it shows in the argument of UpdateRef, and the caller
    does not read [ref] again. *)
Definition pushCommit (f : pullRequestCommand) (ref : Reference) (tree : option Tree)
  : M History (option error) :=
  let o := cmd_options f in
  obj <- deref (Reference_Object ref) ;;
  sha <- deref (GitObject_SHA obj) ;;
  '(parent, err) <- call (ReposGetCommit (SourceOwner o) (SourceRepo o) sha)
                         (fun h => Repositories_GetCommit (cmd_client f) h
                                     (SourceOwner o) (SourceRepo o) sha) ;;
  match err with
  | Some e => ret (Some e)
  | None =>
      p <- deref parent ;;
      pc <- deref (RepositoryCommit_Commit p) ;;
      let pc := Commit_set_SHA pc (RepositoryCommit_SHA p) in
      date <- time_now ;;
      let author := {| CommitAuthor_Date := Some date;
                       CommitAuthor_Name := Some (AuthorName o);
                       CommitAuthor_Email := Some (AuthorEmail o) |} in
      let commit := mkCommit None (Some author) None (Some (pr_CommitMessage o)) tree [pc] in
      '(newCommit, err) <- call (GitCreateCommit (SourceOwner o) (SourceRepo o) commit)
                                (fun h => Git_CreateCommit (cmd_client f) h
                                            (SourceOwner o) (SourceRepo o) commit) ;;
      match err with
      | Some e => ret (Some (fmt_Errorf_w "unable to commit" e))
      | None =>
          nc <- deref newCommit ;;
          let ref := {| Reference_Ref := Reference_Ref ref;
                        Reference_URL := Reference_URL ref;
                        Reference_Object := Some {| GitObject_Type := GitObject_Type obj;
                                                    GitObject_SHA := Commit_SHA nc;
                                                    GitObject_URL := GitObject_URL obj |};
                        Reference_NodeID := Reference_NodeID ref |} in
          '(_, err) <- call (GitUpdateRef (SourceOwner o) (SourceRepo o) ref false)
                            (fun h => Git_UpdateRef (cmd_client f) h
                                        (SourceOwner o) (SourceRepo o) ref false) ;;
          ret err
      end
  end.

(** createPR creates a pull request. *)
Definition createPR (f : pullRequestCommand) : M History (result string) :=
  let o := cmd_options f in
  let newPR := {| NewPullRequest_Title := Some (PullRequestSubject o);
                  NewPullRequest_Head := Some (CommitBranch o);
                  NewPullRequest_Base := Some (PullRequestBranch o);
                  NewPullRequest_Body := Some (PullRequestBody o);
                  NewPullRequest_MaintainerCanModify := Some true |} in
  '(pr, err) <- call (PullRequestsCreate (PullRequestOwner o) (PullRequestRepo o) newPR)
                     (fun h => PullRequests_Create (cmd_client f) h
                                 (PullRequestOwner o) (PullRequestRepo o) newPR) ;;
  match err with
  | Some e => ret ("", Some (fmt_Errorf_w "unable to create PR" e))
  | None => ret (GetHTMLURL pr, None)
  end.

(** [pullRequestCommand.do]: one job. *)
Definition do (f : pullRequestCommand) : M History (result string) :=
  '(ref, err) <- getRef f ;;
  match err with
  | Some e => ret ("", Some e)
  | None =>
      match ref with
      | None => ret ("", Some (errors_New "no error where returned but the reference is nil"))
      | Some ref =>
          '(tree, err) <- getTree f ref ;;
          match err with
          | Some e =>
              ret ("", Some (fmt_Errorf_w "unable to create the tree based on the provided files" e))
          | None =>
              err <- pushCommit f ref tree ;;
              match err with
              | Some e => ret ("", Some (fmt_Errorf_w "unable to create the commit" e))
              | None => createPR f
              end
          end
      end
  end.

(** ** The batch *)

(** What [Do] works on: the command behind the receiver pointer, its local
    variable [urls] (which the callback appends to), and the history. *)
Record DoState := mkDoState {
  this : BatchPullRequestCommand;
  urls : list string;
  hist : History
}.

(** Run a computation on the history inside [Do]. *)
Definition on_hist {A} (m : M History A) : M DoState A :=
  fun s => let (r, h) := m (hist s) in (r, mkDoState (this s) (urls s) h).

Definition get_this : M DoState BatchPullRequestCommand :=
  fun s => (Some (this s), s).

Definition get_urls : M DoState (list string) :=
  fun s => (Some (urls s), s).

Definition set_urls (us : list string) : M DoState unit :=
  fun s => (Some tt, mkDoState (this s) us (hist s)).

(** [f.options.authorName = name; f.options.authorEmail = email] *)
Definition set_author (name email : string) : M DoState unit :=
  fun s =>
    let b := options (this s) in
    let b' := {| CommitMessage := CommitMessage b; Subject := Subject b; Body := Body b;
                 Destinations := Destinations b; Files := Files b;
                 authorName := name; authorEmail := email; Head := Head b |} in
    (Some tt, mkDoState (mkBatchPullRequestCommand b' (client (this s))) (urls s) (hist s)).

(** The function literal passed to [Range] in [Do]. *)
Definition Do_func (f : BatchPullRequestCommand) (opt : pullRequestCreationOptions)
  : M DoState (option error) :=
  let cmd := {| cmd_options := opt; cmd_client := client f |} in
  '(prURL, err) <- on_hist (do cmd) ;;
  _ <- (if (prURL =? "")%string then ret tt
        else (us <- get_urls ;; set_urls (us ++ [prURL])%list)) ;;
  ret err.

(** [BatchPullRequestCommand.Do].  A nil slice and an empty slice are both
    the empty list. *)
Definition Do : M DoState (result (list string)) :=
  f <- get_this ;;
  '(u, err) <- on_hist (call (UsersGet "") (fun h => Users_Get (client f) h "")) ;;
  match err with
  | Some e => ret ([], Some e)
  | None =>
      _ <- set_author (GetName u) (GetEmail u) ;;
      _ <- set_urls [] ;;
      f <- get_this ;;
      err <- Range (options f) (Do_func f) ;;
      us <- get_urls ;;
      ret (us, err)
  end.

End Job.

(** ** Package options (cmd/mkpr/internal/options) and the command *)

(** What the process is started with, and the libraries the command goes
    through: the flags after [flag.Parse], the environment variable, the
    version string of package options, the YAML decoder (given the bytes
    and the value behind the pointer, the value it leaves there and its
    error) and the HTTP client that oauth2 builds for a token. *)
Record Process := mkProcess {
  flag_config       : string;    (* -config, "config.yml" unless given *)
  flag_v            : bool;      (* -v *)
  GITHUB_AUTH_TOKEN : string;    (* os.Getenv: empty when not set *)
  options_Version   : string;    (* options.Version *)
  yaml_Unmarshal    : string -> BatchPullRequestOption ->
                      BatchPullRequestOption * option error;
  oauth2_NewClient  : string -> Client
}.

(** The zero value of [BatchPullRequestOption]. *)
Definition zero_options : BatchPullRequestOption :=
  {| CommitMessage := ""; Subject := ""; Body := ""; Destinations := [];
     Files := []; authorName := ""; authorEmail := ""; Head := "" |}.

(** [options.ParseFile(path)]; [os.ReadFile] is what [ioutil.ReadFile]
    calls. *)
Definition ParseFile (host : Host) (proc : Process) (path : string)
  : M History (result BatchPullRequestOption) :=
  let options := zero_options in
  '(content, err) <- ioutil_ReadFile host path ;;
  match err with
  | Some e => ret (options, Some e)
  | None => ret (yaml_Unmarshal proc content options)
  end.

(** What the command works on: the lines written to standard output,
    oldest first, and the history of calls. *)
Record MainState := mkMainState {
  stdout : list string;
  mhist  : History
}.

(** [fmt.Println(line)] *)
Definition Println (line : string) : M MainState unit :=
  fun s => (Some tt, mkMainState (stdout s ++ [line])%list (mhist s)).

(** Run a computation on the history inside the command. *)
Definition on_mhist {A} (m : M History A) : M MainState A :=
  fun s => let (r, h) := m (mhist s) in (r, mkMainState (stdout s) h).

(** [cmd.Do(ctx)] on the command [cmd] points to; [run] does not look at
    the command afterwards. *)
Definition cmd_Do (host : Host) (cmd : BatchPullRequestCommand)
  : M MainState (result (list string)) :=
  fun s => let (r, d) := Do host (mkDoState cmd [] (mhist s)) in
           (r, mkMainState (stdout s) (hist d)).

(** [for i := range done { fmt.Println(done[i]) }] *)
Fixpoint Println_range (done : list string) : M MainState unit :=
  match done with
  | [] => ret tt
  | line :: rest => _ <- Println line ;; Println_range rest
  end.

(** [run] of cmd/mkpr/main.go. *)
Definition run (host : Host) (proc : Process) : M MainState (option error) :=
  '(option, err) <- on_mhist (ParseFile host proc (flag_config proc)) ;;
  match err with
  | Some e => ret (Some e)
  | None =>
      let token := GITHUB_AUTH_TOKEN proc in
      if (token =? "")%string then ret (Some (errors_New "GITHUB_AUTH_TOKEN not set"))
      else
        let tc := oauth2_NewClient proc token in
        _ <- Println "hold ..." ;;
        match NewBatchPullRequestCommand tc option with
        | (_, Some e) => ret (Some e)
        | (cmd, None) =>
            cmd <- deref cmd ;;
            '(done, err) <- cmd_Do host cmd ;;
            _ <- Println_range done ;;
            match err with
            | Some e => ret (Some e)
            | None => _ <- Println "done." ;; ret None
            end
        end
  end.

(** [main] of cmd/mkpr/main.go; [os.Exit(0)] ends it. *)
Definition main (host : Host) (proc : Process) : M MainState unit :=
  if flag_v proc then
    Println ("Go-Toolkit Batch Pull Requester. Version " ++ options_Version proc)
  else
    err <- run host proc ;;
    match err with
    | Some e => Println ("sorry: " ++ Error e)
    | None => ret tt
    end.

(** * Properties *)

(** ** Notions used to state them *)

(** Does the entry contain the separator of a file mapping? *)
Fixpoint has_sep (s : string) : bool :=
  match s with
  | EmptyString => false
  | String c s' => Ascii.eqb c ":" || has_sep s'
  end.

(** The options [Range] hands to its callback for destination [v]. *)
Definition jobOptions (b : BatchPullRequestOption) (v : Destination)
  : pullRequestCreationOptions :=
  {| SourceOwner        := "mercadolibre";
     PullRequestOwner   := "mercadolibre";
     SourceRepo         := Repository v;
     BaseBranch         := Base v;
     pr_CommitMessage   := CommitMessage b;
     CommitBranch       := Head b;
     PullRequestRepo    := Repository v;
     PullRequestBranch  := Base v;
     PullRequestSubject := Subject b;
     PullRequestBody    := Body b;
     pr_Files           := Files b;
     AuthorName         := authorName b;
     AuthorEmail        := authorEmail b |}.

(** Expansion of a batch description: one [jobOptions] per destination. *)
Definition expand (b : BatchPullRequestOption) : list pullRequestCreationOptions :=
  map (jobOptions b) (Destinations b).

(** The calls a computation adds to the history all satisfy [P]. *)
Definition emits {S A} (hist_of : S -> History) (P : Call -> Prop) (m : M S A) : Prop :=
  forall s, exists new, hist_of (snd (m s)) = (new ++ hist_of s)%list /\ Forall P new.

(** The four steps of a job, and the step a call belongs to. *)
Inductive Step : Type := StepRef | StepTree | StepCommit | StepPR.

Definition call_step (c : Call) : option Step :=
  match c with
  | UsersGet _ => None
  | GitGetRef _ _ _ | GitCreateRef _ _ _ => Some StepRef
  | FileRead _ | GitCreateTree _ _ _ _ => Some StepTree
  | ReposGetCommit _ _ _ | GitCreateCommit _ _ _ | GitUpdateRef _ _ _ _ => Some StepCommit
  | PullRequestsCreate _ _ _ => Some StepPR
  end.

(** The repository owner a remote call is addressed to. *)
Definition call_owner (c : Call) : option string :=
  match c with
  | UsersGet _ | FileRead _ => None
  | GitGetRef o _ _ | GitCreateRef o _ _ | GitCreateTree o _ _ _
  | ReposGetCommit o _ _ | GitCreateCommit o _ _ | GitUpdateRef o _ _ _
  | PullRequestsCreate o _ _ => Some o
  end.

(** The repository a remote call is addressed to. *)
Definition call_repo (c : Call) : option string :=
  match c with
  | UsersGet _ | FileRead _ => None
  | GitGetRef _ r _ | GitCreateRef _ r _ | GitCreateTree _ r _ _
  | ReposGetCommit _ r _ | GitCreateCommit _ r _ | GitUpdateRef _ r _ _
  | PullRequestsCreate _ r _ => Some r
  end.

(** A reference update that is not forced (any other call passes). *)
Definition not_forced (c : Call) : Prop :=
  match c with
  | GitUpdateRef _ _ _ force => force = false
  | _ => True
  end.

Definition is_UsersGet (c : Call) : Prop :=
  match c with UsersGet _ => True | _ => False end.

(** What a call made on behalf of the job with options [o] looks like:
    where it is addressed to, and that reference updates are not forced. *)
Definition job_call (o : pullRequestCreationOptions) (c : Call) : Prop :=
  match c with
  | UsersGet _ => False
  | FileRead _ => True
  | GitGetRef ow r _ | GitCreateTree ow r _ _ | ReposGetCommit ow r _
  | GitCreateCommit ow r _ => ow = SourceOwner o /\ r = SourceRepo o
  | GitCreateRef ow r _ => ow = "mercadolibre" /\ r = SourceRepo o
  | GitUpdateRef ow r _ force => ow = SourceOwner o /\ r = SourceRepo o /\ force = false
  | PullRequestsCreate ow r _ => ow = PullRequestOwner o /\ r = PullRequestRepo o
  end.

(** A call of step [st] of the job with options [o]. *)
Definition step_call (o : pullRequestCreationOptions) (st : Step) (c : Call) : Prop :=
  call_step c = Some st /\ job_call o c.

(** The reference [getRef] asks the API to create. *)
Definition new_branch_ref (o : pullRequestCreationOptions) (base : GitObject) : Reference :=
  {| Reference_Ref := Some ("refs/heads/" ++ CommitBranch o);
     Reference_URL := None;
     Reference_Object := Some {| GitObject_Type := None;
                                 GitObject_SHA := GitObject_SHA base;
                                 GitObject_URL := None |};
     Reference_NodeID := None |}.

(** *** The job state machine of the specification

    Init -> RefResolved -> TreeBuilt -> CommitPublished -> PRCreated, and
    Failed(step, error) from any of them. *)
Inductive JobState : Type :=
| Init
| RefResolved (ref : Reference)
| TreeBuilt (ref : Reference) (tree : option Tree)
| CommitPublished
| PRCreated (url : string)
| Failed (step : Step) (err : error).

(** The step a state is about to take; terminal states take none. *)
Definition pending (s : JobState) : option Step :=
  match s with
  | Init => Some StepRef
  | RefResolved _ => Some StepTree
  | TreeBuilt _ _ => Some StepCommit
  | CommitPublished => Some StepPR
  | PRCreated _ | Failed _ _ => None
  end.

(** One transition: run the pending step; its failure leads to [Failed]. *)
Definition advance (host : Host) (f : pullRequestCommand) (s : JobState) : M History JobState :=
  match s with
  | Init =>
      '(ref, err) <- getRef f ;;
      match err, ref with
      | Some e, _ => ret (Failed StepRef e)
      | None, None =>
          ret (Failed StepRef (errors_New "no error where returned but the reference is nil"))
      | None, Some r => ret (RefResolved r)
      end
  | RefResolved ref =>
      '(tree, err) <- getTree host f ref ;;
      match err with
      | Some e =>
          ret (Failed StepTree
                 (fmt_Errorf_w "unable to create the tree based on the provided files" e))
      | None => ret (TreeBuilt ref tree)
      end
  | TreeBuilt ref tree =>
      err <- pushCommit host f ref tree ;;
      match err with
      | Some e => ret (Failed StepCommit (fmt_Errorf_w "unable to create the commit" e))
      | None => ret CommitPublished
      end
  | CommitPublished =>
      '(url, err) <- createPR f ;;
      match err with
      | Some e => ret (Failed StepPR e)
      | None => ret (PRCreated url)
      end
  | PRCreated _ | Failed _ _ => ret s
  end.

(** What the job returns in a terminal state. *)
Definition job_result (s : JobState) : result string :=
  match s with
  | PRCreated url => (url, None)
  | Failed _ e => ("", Some e)
  | _ => ("", None)
  end.

(** The machine, run for its four transitions. *)
Definition run_job (host : Host) (f : pullRequestCommand) : M History JobState :=
  s1 <- advance host f Init ;;
  s2 <- advance host f s1 ;;
  s3 <- advance host f s2 ;;
  advance host f s3.

(** *** Batches *)

(** The jobs for [os] all succeed when run one after the other from
    history [h]: their URLs in order, and the history they leave. *)
Fixpoint jobs_succeed (host : Host) (c : Client) (os : list pullRequestCreationOptions)
    (h : History) : option (list string * History) :=
  match os with
  | [] => Some ([], h)
  | o :: os' =>
      match do host (mkPullRequestCommand o c) h with
      | (Some (url, None), h1) =>
          match jobs_succeed host c os' h1 with
          | Some (us, h') => Some (url :: us, h')
          | None => None
          end
      | _ => None
      end
  end.

(** The URLs that are reported: the empty string stands for "no URL". *)
Definition reported (us : list string) : list string :=
  filter (fun u => negb (u =? "")%string) us.

(** The batch description with the author identity filled in. *)
Definition with_author (b : BatchPullRequestOption) (name email : string)
  : BatchPullRequestOption :=
  {| CommitMessage := CommitMessage b; Subject := Subject b; Body := Body b;
     Destinations := Destinations b; Files := Files b;
     authorName := name; authorEmail := email; Head := Head b |}.

(** Visit [os] in order, stopping at the first error of the callback. *)
Fixpoint for_each {S} (f : pullRequestCreationOptions -> M S (option error))
    (os : list pullRequestCreationOptions) : M S (option error) :=
  match os with
  | [] => ret None
  | o :: os' =>
      err <- f o ;;
      match err with
      | Some e => ret (Some e)
      | None => for_each f os'
      end
  end.

(** *** Files *)

(** The two paths of a file-mapping entry. *)
Definition local_path (fileArg : string) : string :=
  match strings_Split fileArg ":" with
  | f0 :: _ => f0
  | [] => ""
  end.

Definition target_path (fileArg : string) : string :=
  match strings_Split fileArg ":" with
  | _ :: f1 :: _ => f1
  | [f0] => f0
  | [] => ""
  end.

(** Read the files in order: their contents, or the error of the first
    one that cannot be read; and the history the reads leave. *)
Fixpoint load_files (host : Host) (paths : list string) (h : History)
  : (list string + error) * History :=
  match paths with
  | [] => (inl [], h)
  | p :: ps =>
      match fs_read host h p with
      | (_, Some (op, cause)) => (inr (PathError op p cause), FileRead p :: h)
      | (b, None) =>
          match load_files host ps (FileRead p :: h) with
          | (inl bs, h') => (inl (b :: bs), h')
          | (inr e, h') => (inr e, h')
          end
      end
  end.

(** The tree entry for a file: a regular blob with inline content. *)
Definition blob_entry (target content : string) : TreeEntry :=
  {| TreeEntry_SHA := None;
     TreeEntry_Path := Some target;
     TreeEntry_Mode := Some "100644";
     TreeEntry_Type := Some "blob";
     TreeEntry_Size := None;
     TreeEntry_Content := Some content;
     TreeEntry_URL := None |}.

Fixpoint blob_entries (targets contents : list string) : list TreeEntry :=
  match targets, contents with
  | t :: ts, b :: bs => blob_entry t b :: blob_entries ts bs
  | _, _ => []
  end.

(** The commit SHA a reference points at, [*ref.Object.SHA]. *)
Definition ref_sha (ref : Reference) : option string :=
  match Reference_Object ref with
  | Some obj => GitObject_SHA obj
  | None => None
  end.

(** ** A small world to run the code in *)

Definition demo_host : Host :=
  {| fs_read := fun _ name =>
       if (name =? "README.md")%string then ("# mkpr", None)
       else if (name =? "a")%string then ("alpha", None)
       else if (name =? "a.txt")%string then ("text", None)
       else ("", Some ("open", errors_New "no such file or directory"));
     time_Now := fun h => Z.of_nat (List.length h) |}.

(** Has the branch [ref] of [repo] been created by an earlier call? *)
Fixpoint created_ref (h : History) (repo ref : string) : option Reference :=
  match h with
  | [] => None
  | GitCreateRef _ r (Some nr) :: h' =>
      if (r =? repo)%string && match Reference_Ref nr with
                               | Some n => (n =? ref)%string
                               | None => false
                               end
      then Some nr else created_ref h' repo ref
  | _ :: h' => created_ref h' repo ref
  end.

(** Every repository has a branch "main"; other branches exist once they
    have been created; commits cannot be created in repository "r2". *)
Definition demo_client : Client :=
  {| Users_Get := fun _ _ =>
       (Some (mkUser (Some "ada") (Some "Ada") (Some "ada@example.com")), None);
     Git_GetRef := fun h _ repo ref =>
       if (ref =? "refs/heads/main")%string then
         (Some (mkReference (Some ref) None
                  (Some (mkGitObject (Some "commit") (Some ("main-of-" ++ repo)) None)) None),
          None)
       else match created_ref h repo ref with
            | Some r => (Some r, None)
            | None => (None, Some (errors_New "404 Not Found"))
            end;
     Git_CreateRef := fun _ _ _ newRef => (newRef, None);
     Git_CreateTree := fun _ _ repo _ entries =>
       (Some (mkTree (Some ("tree-of-" ++ repo)) entries), None);
     Repositories_GetCommit := fun _ _ _ sha =>
       (Some (mkRepositoryCommit (Some sha)
                (Some (mkCommit None None None (Some "previous") None []))), None);
     Git_CreateCommit := fun _ _ repo commit =>
       if (repo =? "r2")%string then (None, Some (errors_New "422 Unprocessable Entity"))
       else (Some (Commit_set_SHA commit (Some ("commit-of-" ++ repo))), None);
     Git_UpdateRef := fun _ _ _ ref _ => (Some ref, None);
     PullRequests_Create := fun _ owner repo _ =>
       (Some (mkPullRequest (Some 1%Z)
                (Some ("https://github.com/" ++ owner ++ "/" ++ repo ++ "/pull/1"))), None) |}.

Definition demo_batch : BatchPullRequestOption :=
  {| CommitMessage := "update readme";
     Subject := "Update README";
     Body := "automatic change";
     Destinations := [mkDestination "r1" "main"; mkDestination "r2" "main";
                      mkDestination "r3" "main"];
     Files := ["README.md"];
     authorName := "";
     authorEmail := "";
     Head := "feature/x" |}.

Definition demo_state : DoState :=
  {| this := mkBatchPullRequestCommand demo_batch demo_client; urls := []; hist := [] |}.

(** ** Further notions *)


Definition Commit_Committer (c : Commit) : option CommitAuthor :=
  match c with mkCommit _ _ k _ _ _ => k end.

(** The pull request [createPR] asks for. *)
Definition new_pull_request (o : pullRequestCreationOptions) : NewPullRequest :=
  {| NewPullRequest_Title := Some (PullRequestSubject o);
     NewPullRequest_Head := Some (CommitBranch o);
     NewPullRequest_Base := Some (PullRequestBranch o);
     NewPullRequest_Body := Some (PullRequestBody o);
     NewPullRequest_MaintainerCanModify := Some true |}.

(** What a call made for the job with options [o] carries. *)
Definition job_call_shape (o : pullRequestCreationOptions) (c : Call) : Prop :=
  match c with
  | UsersGet _ => False
  | FileRead p => In p (map local_path (pr_Files o))
  | GitGetRef ow r ref =>
      ow = SourceOwner o /\ r = SourceRepo o /\
      (ref = "refs/heads/" ++ CommitBranch o \/ ref = "refs/heads/" ++ BaseBranch o)
  | GitCreateRef ow r nr =>
      ow = "mercadolibre" /\ r = SourceRepo o /\
      exists base, nr = Some (new_branch_ref o base)
  | GitCreateTree ow r _ entries =>
      ow = SourceOwner o /\ r = SourceRepo o /\
      exists contents,
        List.length contents = List.length (pr_Files o) /\
        entries = blob_entries (map target_path (pr_Files o)) contents
  | ReposGetCommit ow r _ => ow = SourceOwner o /\ r = SourceRepo o
  | GitCreateCommit ow r commit =>
      ow = SourceOwner o /\ r = SourceRepo o /\
      Commit_SHA commit = None /\ Commit_Committer commit = None /\
      Commit_Message commit = Some (pr_CommitMessage o) /\
      (exists date, Commit_Author commit =
                    Some {| CommitAuthor_Date := Some date;
                            CommitAuthor_Name := Some (AuthorName o);
                            CommitAuthor_Email := Some (AuthorEmail o) |}) /\
      exists parent, Commit_Parents commit = [parent]
  | GitUpdateRef ow r _ force =>
      ow = SourceOwner o /\ r = SourceRepo o /\ force = false
  | PullRequestsCreate ow r pull =>
      ow = PullRequestOwner o /\ r = PullRequestRepo o /\ pull = new_pull_request o
  end.

(** A call made for one of the destinations of the batch [b]. *)
Definition batch_call_shape (b : BatchPullRequestOption) (c : Call) : Prop :=
  exists v, In v (Destinations b) /\ job_call_shape (jobOptions b v) c.

(** The description a batch run works with: the one of the command, with
    the author the user lookup answers at the start of the run. *)
Definition run_description (s : DoState) : BatchPullRequestOption :=
  let u := fst (Users_Get (client (this s)) (hist s) "") in
  with_author (options (this s)) (GetName u) (GetEmail u).

(** A callback for [Range] that records the options it is called with and
    answers what [g] decides. *)
Definition recording (g : pullRequestCreationOptions -> option error)
  : pullRequestCreationOptions -> M (list pullRequestCreationOptions) (option error) :=
  fun o seen => (Some (g o), (seen ++ [o])%list).


(** ** More of the small world *)

Definition demo_machine : Host :=
  {| fs_read := fun h name =>
       if (name =? "config.yml")%string then ("head: feature/x", None)
       else fs_read demo_host h name;
     time_Now := time_Now demo_host |}.

Definition demo_process : Process :=
  {| flag_config := "config.yml";
     flag_v := false;
     GITHUB_AUTH_TOKEN := "secret";
     options_Version := "1.0.0";
     yaml_Unmarshal := fun content o =>
       if (content =? "head: feature/x")%string then (demo_batch, None)
       else (o, Some (errors_New "yaml: unmarshal errors"));
     oauth2_NewClient := fun _ => demo_client |}.

Definition demo_process_without_token : Process :=
  {| flag_config := "config.yml"; flag_v := false; GITHUB_AUTH_TOKEN := "";
     options_Version := "1.0.0";
     yaml_Unmarshal := yaml_Unmarshal demo_process;
     oauth2_NewClient := oauth2_NewClient demo_process |}.

Definition demo_process_missing_config : Process :=
  {| flag_config := "nowhere.yml"; flag_v := false; GITHUB_AUTH_TOKEN := "secret";
     options_Version := "1.0.0";
     yaml_Unmarshal := yaml_Unmarshal demo_process;
     oauth2_NewClient := oauth2_NewClient demo_process |}.

(** A description whose only destination has the head branch as base. *)
Definition demo_conflict : BatchPullRequestOption :=
  {| CommitMessage := "m"; Subject := "s"; Body := "b";
     Destinations := [mkDestination "r1" "develop"; mkDestination "r2" "main"];
     Files := ["README.md"]; authorName := ""; authorEmail := ""; Head := "main" |}.

Definition demo_process_conflict : Process :=
  {| flag_config := "config.yml"; flag_v := false; GITHUB_AUTH_TOKEN := "secret";
     options_Version := "1.0.0";
     yaml_Unmarshal := fun _ _ => (demo_conflict, None);
     oauth2_NewClient := oauth2_NewClient demo_process |}.

(** The API of [demo_client] for a token it does not accept. *)
Definition demo_client_unauthorized : Client :=
  {| Users_Get := fun _ _ => (None, Some (errors_New "401 Bad credentials"));
     Git_GetRef := Git_GetRef demo_client;
     Git_CreateRef := Git_CreateRef demo_client;
     Git_CreateTree := Git_CreateTree demo_client;
     Repositories_GetCommit := Repositories_GetCommit demo_client;
     Git_CreateCommit := Git_CreateCommit demo_client;
     Git_UpdateRef := Git_UpdateRef demo_client;
     PullRequests_Create := PullRequests_Create demo_client |}.

(** A batch with the two destinations that [demo_client] serves. *)
Definition demo_batch_ok : BatchPullRequestOption :=
  {| CommitMessage := "update readme"; Subject := "Update README";
     Body := "automatic change";
     Destinations := [mkDestination "r1" "main"; mkDestination "r3" "main"];
     Files := ["README.md"; "a:docs/a.md"];
     authorName := "somebody"; authorEmail := "else"; Head := "feature/x" |}.

Definition demo_initial : MainState := {| stdout := []; mhist := [] |}.

(** ** strings.Split on the mapping separator *)

Lemma append_cons_assoc (cur : string) (c : ascii) (s : string) :
  (cur ++ String c EmptyString) ++ s = cur ++ String c s.
Proof. induction cur as [|a cur IH]; simpl; [reflexivity | now rewrite IH]. Qed.

Lemma append_empty_r (s : string) : s ++ "" = s.
Proof. induction s as [|a s IH]; simpl; [reflexivity | now rewrite IH]. Qed.

Lemma split_scan_no_sep (s cur : string) :
  has_sep s = false -> split_scan ":" 0 cur s = [cur ++ s].
Proof.
  revert cur; induction s as [|c s IH]; intros cur H; simpl in *.
  - now rewrite append_empty_r.
  - apply orb_false_iff in H as [Hc Hs].
    rewrite Hc; simpl. rewrite (IH _ Hs). now rewrite append_cons_assoc.
Qed.

Lemma split_scan_first_sep (l s cur : string) :
  has_sep l = false ->
  split_scan ":" 0 cur (l ++ ":" ++ s) = (cur ++ l) :: split_scan ":" 0 "" s.
Proof.
  revert cur; induction l as [|c l IH]; intros cur H; simpl in *.
  - rewrite append_empty_r. now destruct s.
  - apply orb_false_iff in H as [Hc Hl].
    rewrite Hc; simpl. rewrite (IH _ Hl). now rewrite append_cons_assoc.
Qed.

Lemma Split_no_sep (s : string) :
  has_sep s = false -> strings_Split s ":" = [s].
Proof. intros H. unfold strings_Split. now rewrite split_scan_no_sep. Qed.

Lemma Split_first_sep (l s : string) :
  has_sep l = false ->
  strings_Split (l ++ ":" ++ s) ":" = l :: strings_Split s ":".
Proof. intros H. unfold strings_Split. now rewrite split_scan_first_sep. Qed.

Lemma split_scan_nonempty (s cur : string) : split_scan ":" 0 cur s <> [].
Proof.
  revert cur; induction s as [|c s IH]; intros cur; cbn [split_scan]; [discriminate|].
  destruct (HasPrefix (String c s) ":"); [discriminate | apply IH].
Qed.

(** [strings.Split] never returns an empty slice for the separator ":". *)
Lemma Split_nonempty (s : string) : strings_Split s ":" <> [].
Proof. apply split_scan_nonempty. Qed.


Example Split_examples :
  strings_Split "a:b:c" ":" = ["a"; "b"; "c"] /\
  strings_Split "" ":" = [""] /\
  strings_Split "a:" ":" = ["a"; ""] /\
  strings_Split ":a" ":" = [""; "a"] /\
  strings_Split "a, b,, c" ", " = ["a"; "b,"; "c"] /\
  strings_Split "aaa" "aa" = [""; "a"].
Proof. repeat split; reflexivity. Qed.

(** ** Validation *)

Lemma validate_range_fails_iff (head : string) (ds : list Destination) :
  validate_range head ds <> None <->
  Exists (fun d => Base d = "" \/ Base d = head) ds.
Proof.
  induction ds as [|v ds IH]; simpl.
  - split; [congruence | intros H; inversion H].
  - destruct (String.eqb_spec (Base v) "") as [E|E].
    + split; [intros _; constructor; now left | discriminate].
    + destruct (String.eqb_spec head (Base v)) as [E'|E'].
      * split; [intros _; constructor; now right | discriminate].
      * rewrite IH. split.
        -- intros H; now constructor 2.
        -- intros H; inversion H as [? ? [H1|H1]|]; subst; congruence.
Qed.

(** C5.  [validate] returns an error exactly when the head branch name is
    empty, or some destination has an empty base branch, or some
    destination's base branch equals the head branch name. *)
Theorem validate_fails_iff (b : BatchPullRequestOption) :
  validate b <> None <->
  Head b = "" \/
  Exists (fun d => Base d = "" \/ Base d = Head b) (Destinations b).
Proof.
  unfold validate. destruct (String.eqb_spec (Head b) "") as [E|E].
  - split; [intros _; now left | discriminate].
  - rewrite validate_range_fails_iff. split; [now right | intros [H|H]; congruence].
Qed.

(** The constructor hands out a command exactly when validation passes. *)
Lemma NewBatchPullRequestCommand_validates (tc : Client) (b : BatchPullRequestOption) :
  (validate b = None ->
   NewBatchPullRequestCommand tc b = (Some (mkBatchPullRequestCommand b tc), None)) /\
  (forall e, validate b = Some e -> NewBatchPullRequestCommand tc b = (None, Some e)).
Proof.
  unfold NewBatchPullRequestCommand.
  split; [intros -> | intros e ->]; reflexivity.
Qed.

Example validate_demo :
  validate demo_batch = None /\
  validate (mkBatchPullRequestOption "m" "s" "b" [mkDestination "r1" "main"] [] "" "" "")
    = Some (errors_New "base branch cannot be empty") /\
  validate (mkBatchPullRequestOption "m" "s" "b" [mkDestination "r1" "main"] [] "" "" "main")
    = Some (fmt_Errorf "base branch cannot be the same as head at repository r1").
Proof. repeat split; reflexivity. Qed.

(** ** File mappings *)

(** An entry without separator names the local file and the target. *)
Lemma getFileContent_bare (host : Host) (p : string) :
  has_sep p = false ->
  getFileContent host p = ('(b, err) <- ioutil_ReadFile host p ;; ret (p, b, err)).
Proof. intros H. unfold getFileContent. now rewrite (Split_no_sep _ H). Qed.

(** With separators, the local file is the first segment and the target
    the second one; what follows a second separator is dropped. *)
Lemma getFileContent_pair (host : Host) (l t : string) (more : option string) :
  has_sep l = false -> has_sep t = false ->
  getFileContent host (l ++ ":" ++ t ++ match more with
                                        | Some r => ":" ++ r
                                        | None => ""
                                        end)
  = ('(b, err) <- ioutil_ReadFile host l ;; ret (t, b, err)).
Proof.
  intros Hl Ht. unfold getFileContent. rewrite (Split_first_sep _ _ Hl).
  destruct more as [r|].
  - now rewrite (Split_first_sep _ _ Ht).
  - rewrite append_empty_r. now rewrite (Split_no_sep _ Ht).
Qed.

(** C3, as the code has it.  An entry without separator is both the local
    and the target path.  An entry with separators is split at every
    separator: the local path is the segment before the first one, the
    target path the segment between the first and the second one (the
    whole remainder only when there is no second separator); further
    segments are ignored, without validation. *)
Theorem getFileContent_mapping (host : Host) (l t : string) :
  has_sep l = false -> has_sep t = false ->
  getFileContent host l = ('(b, err) <- ioutil_ReadFile host l ;; ret (l, b, err)) /\
  getFileContent host (l ++ ":" ++ t) = ('(b, err) <- ioutil_ReadFile host l ;; ret (t, b, err)) /\
  forall r, getFileContent host (l ++ ":" ++ t ++ ":" ++ r)
            = ('(b, err) <- ioutil_ReadFile host l ;; ret (t, b, err)).
Proof.
  intros Hl Ht. split; [now apply getFileContent_bare|]. split.
  - pose proof (getFileContent_pair host l t None Hl Ht) as H.
    simpl in H. now rewrite append_empty_r in H.
  - intros r. exact (getFileContent_pair host l t (Some r) Hl Ht).
Qed.

Lemma getFileContent_mapping_witness :
  getFileContent demo_host "a.txt" [] = (Some ("a.txt", "text", None), [FileRead "a.txt"]) /\
  getFileContent demo_host "a.txt:sub/b.txt" []
    = (Some ("sub/b.txt", "text", None), [FileRead "a.txt"]) /\
  getFileContent demo_host "a.txt:sub/b.txt:c" []
    = (Some ("sub/b.txt", "text", None), [FileRead "a.txt"]).
Proof.
  destruct (getFileContent_mapping demo_host "a.txt" "sub/b.txt"
              eq_refl eq_refl) as (H1 & H2 & H3).
  split; [|split].
  - rewrite H1. reflexivity.
  - change "a.txt:sub/b.txt" with ("a.txt" ++ ":" ++ "sub/b.txt"). rewrite H2. reflexivity.
  - change "a.txt:sub/b.txt:c" with ("a.txt" ++ ":" ++ "sub/b.txt" ++ ":" ++ "c").
    rewrite H3. reflexivity.
Defined.

(** C3 as written fails: for "a:b:c" the target is "b", not the remainder
    "b:c" after the first separator. *)
Lemma getFileContent_target_is_not_remainder :
  getFileContent demo_host "a:b:c" [] = (Some ("b", "alpha", None), [FileRead "a"]) /\
  ~ (exists b err h, getFileContent demo_host "a:b:c" [] = (Some ("b:c", b, err), h)).
Proof.
  split; [reflexivity|].
  intros (b & err & h & H). vm_compute in H. discriminate H.
Qed.

(** ** Calls added to the history *)

Lemma emits_ret {S A} (hist_of : S -> History) (P : Call -> Prop) (a : A) :
  emits hist_of P (ret a).
Proof. intros s. exists []. split; [reflexivity | constructor]. Qed.

Lemma emits_panic {S A} (hist_of : S -> History) (P : Call -> Prop) :
  emits hist_of P (@panic S A).
Proof. intros s. exists []. split; [reflexivity | constructor]. Qed.

Lemma emits_deref {S A} (hist_of : S -> History) (P : Call -> Prop) (p : option A) :
  emits hist_of P (@deref S A p).
Proof. destruct p; [apply emits_ret | apply emits_panic]. Qed.

Lemma emits_bind {S A B} (hist_of : S -> History) (P : Call -> Prop)
    (m : M S A) (k : A -> M S B) :
  emits hist_of P m -> (forall a, emits hist_of P (k a)) -> emits hist_of P (bind m k).
Proof.
  intros Hm Hk s. unfold bind.
  destruct (Hm s) as (n1 & E1 & F1).
  destruct (m s) as [[a|] s1]; simpl in E1.
  - destruct (Hk a s1) as (n2 & E2 & F2).
    exists (n2 ++ n1)%list. split.
    + rewrite E2, E1. now rewrite app_assoc.
    + apply Forall_app. now split.
  - exists n1. now split.
Qed.

Lemma emits_call {A} (P : Call -> Prop) (c : Call) (answer : History -> A) :
  P c -> emits (fun h => h) P (call c answer).
Proof. intros Hc h. exists [c]. split; [reflexivity | now constructor]. Qed.

Lemma emits_time_now (host : Host) (P : Call -> Prop) :
  emits (fun h => h) P (time_now host).
Proof. intros h. exists []. split; [reflexivity | constructor]. Qed.

Lemma emits_weaken {S A} (hist_of : S -> History) (P Q : Call -> Prop) (m : M S A) :
  (forall c, P c -> Q c) -> emits hist_of P m -> emits hist_of Q m.
Proof.
  intros HPQ Hm s. destruct (Hm s) as (n & E & F).
  exists n. split; [assumption | now apply (Forall_impl Q HPQ)].
Qed.

Lemma emits_on_hist {A} (P : Call -> Prop) (m : M History A) :
  emits (fun h => h) P m -> emits hist P (on_hist m).
Proof.
  intros Hm s. destruct (Hm (hist s)) as (n & E & F).
  exists n. unfold on_hist. destruct (m (hist s)) as [r h']. simpl in *. now split.
Qed.

(** Steps through a computation, one bind at a time. *)
Ltac emits_step :=
  match goal with
  | |- emits _ _ (bind _ _) => apply emits_bind; [| intros ?]
  | |- emits _ _ (ret _) => apply emits_ret
  | |- emits _ _ panic => apply emits_panic
  | |- emits _ _ (deref _) => apply emits_deref
  | |- emits _ _ (time_now _) => apply emits_time_now
  | |- emits _ _ (call _ _) => apply emits_call; simpl; auto
  | |- emits _ _ (match ?x with _ => _ end) => destruct x
  | |- emits _ _ (let '(_, _) := ?x in _) => destruct x
  end.

Lemma getRef_emits (f : pullRequestCommand) :
  emits (fun h => h) (step_call (cmd_options f) StepRef) (getRef f).
Proof. unfold getRef, step_call. repeat emits_step. Qed.

Lemma getFileContent_emits (host : Host) (o : pullRequestCreationOptions) (fileArg : string) :
  emits (fun h => h) (step_call o StepTree) (getFileContent host fileArg).
Proof.
  unfold getFileContent, ioutil_ReadFile, step_call.
  destruct (strings_Split fileArg ":") as [|f0 [|f1 fs]]; repeat emits_step.
Qed.

Lemma getTree_range_emits (host : Host) (o : pullRequestCreationOptions)
    (fileArgs : list string) (entries : list TreeEntry) :
  emits (fun h => h) (step_call o StepTree) (getTree_range host fileArgs entries).
Proof.
  revert entries. induction fileArgs as [|a rest IH]; intros entries; simpl.
  - apply emits_ret.
  - apply emits_bind; [apply getFileContent_emits|].
    intros [[file content] [e|]]; [apply emits_ret | apply IH].
Qed.

Lemma getTree_emits (host : Host) (f : pullRequestCommand) (ref : Reference) :
  emits (fun h => h) (step_call (cmd_options f) StepTree) (getTree host f ref).
Proof.
  unfold getTree. apply emits_bind; [apply getTree_range_emits|].
  intros [entries|e]; unfold step_call; repeat emits_step.
Qed.

Lemma pushCommit_emits (host : Host) (f : pullRequestCommand) (ref : Reference)
    (tree : option Tree) :
  emits (fun h => h) (step_call (cmd_options f) StepCommit) (pushCommit host f ref tree).
Proof. unfold pushCommit, step_call. repeat emits_step. Qed.

Lemma createPR_emits (f : pullRequestCommand) :
  emits (fun h => h) (step_call (cmd_options f) StepPR) (createPR f).
Proof. unfold createPR, step_call. repeat emits_step. Qed.

Lemma step_call_job (o : pullRequestCreationOptions) (st : Step) (c : Call) :
  step_call o st c -> job_call o c.
Proof. now intros [_ H]. Qed.

(** Every call of a job is a call of one of its steps. *)
Lemma do_emits (host : Host) (f : pullRequestCommand) :
  emits (fun h => h) (job_call (cmd_options f)) (do host f).
Proof.
  unfold do.
  apply emits_bind; [exact (emits_weaken _ _ _ _ (step_call_job _ _) (getRef_emits f))|].
  intros [ref [e|]]; [apply emits_ret|].
  destruct ref as [ref|]; [|apply emits_ret].
  apply emits_bind; [exact (emits_weaken _ _ _ _ (step_call_job _ _) (getTree_emits host f ref))|].
  intros [tree [e|]]; [apply emits_ret|].
  apply emits_bind;
    [exact (emits_weaken _ _ _ _ (step_call_job _ _) (pushCommit_emits host f ref tree))|].
  intros [e|]; [apply emits_ret|].
  exact (emits_weaken _ _ _ _ (step_call_job _ _) (createPR_emits f)).
Qed.

(** ** The reference resolver *)

(** C2.  [getRef] first looks the commit branch up.  If that succeeds it
    returns the reference it got, unchanged, after that single call.  If
    it fails, whatever the error, it looks the base branch up; if that
    fails too it returns an error after these two calls, and otherwise it
    asks for a new reference named after the commit branch that points at
    the base branch's SHA, and returns the answer of that call. *)
Theorem getRef_resolves (f : pullRequestCommand) (h : History) :
  let o := cmd_options f in
  let c := cmd_client f in
  let get_head := GitGetRef (SourceOwner o) (SourceRepo o) ("refs/heads/" ++ CommitBranch o) in
  let get_base := GitGetRef (SourceOwner o) (SourceRepo o) ("refs/heads/" ++ BaseBranch o) in
  match Git_GetRef c h (SourceOwner o) (SourceRepo o) ("refs/heads/" ++ CommitBranch o) with
  | (ref, None) => getRef f h = (Some (ref, None), get_head :: h)
  | (_, Some _) =>
      match Git_GetRef c (get_head :: h) (SourceOwner o) (SourceRepo o)
                       ("refs/heads/" ++ BaseBranch o) with
      | (_, Some e) =>
          getRef f h = (Some (None, Some (fmt_Errorf_w "unable to get base ref" e)),
                        get_base :: get_head :: h)
      | (Some baseRef, None) =>
          match Reference_Object baseRef with
          | Some base =>
              let create := GitCreateRef "mercadolibre" (SourceRepo o)
                                         (Some (new_branch_ref o base)) in
              getRef f h = (Some (Git_CreateRef c (get_base :: get_head :: h) "mercadolibre"
                                                (SourceRepo o) (Some (new_branch_ref o base))),
                            create :: get_base :: get_head :: h)
          | None => getRef f h = (None, get_base :: get_head :: h)
          end
      | (None, None) => getRef f h = (None, get_base :: get_head :: h)
      end
  end.
Proof.
  cbv zeta. unfold getRef, bind, call, deref, ret, panic.
  destruct (Git_GetRef _ h _ _ _) as [ref [e|]]; [|reflexivity].
  destruct (Git_GetRef _ (_ :: h) _ _ _) as [[baseRef|] [e'|]]; try reflexivity.
  destruct (Reference_Object baseRef) as [base|]; reflexivity.
Qed.

(** A branch that is found is returned as it is, after the one look-up. *)
Lemma getRef_found (f : pullRequestCommand) (h : History) (ref : option Reference) :
  Git_GetRef (cmd_client f) h (SourceOwner (cmd_options f)) (SourceRepo (cmd_options f))
             ("refs/heads/" ++ CommitBranch (cmd_options f)) = (ref, None) ->
  getRef f h =
    (Some (ref, None),
     GitGetRef (SourceOwner (cmd_options f)) (SourceRepo (cmd_options f))
               ("refs/heads/" ++ CommitBranch (cmd_options f)) :: h).
Proof. intros H. unfold getRef, bind, call, ret. now rewrite H. Qed.

(** Resolving a branch that exists is idempotent: two resolutions in a row
    return the same reference and make two look-ups, no creation. *)
Lemma getRef_idempotent (f : pullRequestCommand) (h : History) (ref : option Reference) :
  let o := cmd_options f in
  let get_head := GitGetRef (SourceOwner o) (SourceRepo o) ("refs/heads/" ++ CommitBranch o) in
  Git_GetRef (cmd_client f) h (SourceOwner o) (SourceRepo o)
             ("refs/heads/" ++ CommitBranch o) = (ref, None) ->
  Git_GetRef (cmd_client f) (get_head :: h) (SourceOwner o) (SourceRepo o)
             ("refs/heads/" ++ CommitBranch o) = (ref, None) ->
  (r1 <- getRef f ;; r2 <- getRef f ;; ret (r1, r2)) h
  = (Some ((ref, None), (ref, None)), get_head :: get_head :: h).
Proof.
  cbv zeta. intros H1 H2. unfold bind at 1. rewrite (getRef_found f h ref H1).
  unfold bind at 1. rewrite (getRef_found f _ ref H2). reflexivity.
Qed.

Example getRef_demo :
  let f := mkPullRequestCommand (jobOptions demo_batch (mkDestination "r1" "main")) demo_client in
  let created := mkReference (Some "refs/heads/feature/x") None
                   (Some (mkGitObject None (Some "main-of-r1") None)) None in
  getRef f [] =
    (Some (Some created, None),
     [GitCreateRef "mercadolibre" "r1" (Some created);
      GitGetRef "mercadolibre" "r1" "refs/heads/main";
      GitGetRef "mercadolibre" "r1" "refs/heads/feature/x"]) /\
  getRef f [GitCreateRef "mercadolibre" "r1" (Some created)] =
    (Some (Some created, None),
     [GitGetRef "mercadolibre" "r1" "refs/heads/feature/x";
      GitCreateRef "mercadolibre" "r1" (Some created)]).
Proof. split; reflexivity. Qed.

(** ** The commit publisher *)

(** C4.  Whatever [pushCommit] is given, every reference update it issues
    is a non-forced one; and when it gets as far as the update, it returns
    exactly the error (or nil) that the update call answered, so that a
    rejected update is reported and nothing is overwritten. *)
Theorem pushCommit_never_forces (host : Host) (f : pullRequestCommand) (ref : Reference)
    (tree : option Tree) (h : History) :
  exists new,
    snd (pushCommit host f ref tree h) = (new ++ h)%list /\
    Forall not_forced new /\
    forall owner repo r force rest,
      new = GitUpdateRef owner repo r force :: rest ->
      force = false /\
      fst (pushCommit host f ref tree h)
      = Some (snd (Git_UpdateRef (cmd_client f) (rest ++ h)%list owner repo r false)).
Proof.
  unfold pushCommit, bind, call, deref, ret, panic, time_now.
  destruct (Reference_Object ref) as [obj|];
    [|exists []; repeat split; [constructor | discriminate | discriminate]].
  destruct (GitObject_SHA obj) as [sha|];
    [|exists []; repeat split; [constructor | discriminate | discriminate]].
  destruct (Repositories_GetCommit _ h _ _ _) as [parent [e|]];
    [eexists [_]; repeat split; [repeat constructor | congruence | discriminate]|].
  destruct parent as [p|];
    [|eexists [_]; repeat split; [repeat constructor | congruence | discriminate]].
  destruct (RepositoryCommit_Commit p) as [pc|];
    [|eexists [_]; repeat split; [repeat constructor | congruence | discriminate]].
  destruct (Git_CreateCommit _ _ _ _ _) as [newCommit [e|]];
    [eexists [_; _]; repeat split; [repeat constructor | congruence | discriminate]|].
  destruct newCommit as [nc|];
    [|eexists [_; _]; repeat split; [repeat constructor | congruence | discriminate]].
  destruct (Git_UpdateRef _ _ _ _ _ _) as [r' e'] eqn:EU.
  eexists [_; _; _]. split; [reflexivity|]. split; [repeat constructor|].
  intros owner repo r force rest H. injection H as <- <- <- <- <-. split; [reflexivity|].
  simpl. rewrite EU. reflexivity.
Qed.

Example pushCommit_demo :
  let f := mkPullRequestCommand (jobOptions demo_batch (mkDestination "r1" "main")) demo_client in
  let ref := mkReference (Some "refs/heads/feature/x") None
               (Some (mkGitObject None (Some "main-of-r1") None)) None in
  fst (pushCommit demo_host f ref None []) = Some None /\
  match snd (pushCommit demo_host f ref None []) with
  | [GitUpdateRef "mercadolibre" "r1" updated false;
     GitCreateCommit "mercadolibre" "r1" _;
     ReposGetCommit "mercadolibre" "r1" "main-of-r1"] =>
      ref_sha updated = Some "commit-of-r1"
  | _ => False
  end.
Proof. vm_compute. split; reflexivity. Qed.

(** ** The job *)

(** A job that returns an error returns no URL. *)
Lemma do_error_no_url (host : Host) (f : pullRequestCommand) (h h' : History)
    (url : string) (e : error) :
  do host f h = (Some (url, Some e), h') -> url = "".
Proof.
  unfold do, bind, ret.
  destruct (getRef f h) as [[[ref [e1|]]|] h1]; try congruence.
  destruct ref as [ref|]; try congruence.
  destruct (getTree host f ref h1) as [[[tree [e2|]]|] h2]; try congruence.
  destruct (pushCommit host f ref tree h2) as [[[e3|]|] h3]; try congruence.
  unfold createPR, bind, call, ret.
  destruct (PullRequests_Create _ _ _ _ _) as [pr [e4|]]; congruence.
Qed.

Lemma do_runs_machine (host : Host) (f : pullRequestCommand) (h : History) :
  do host f h = (s <- run_job host f ;; ret (job_result s)) h.
Proof.
  unfold do, run_job, bind, ret. simpl.
  unfold bind, ret.
  destruct (getRef f h) as [[[ref [e1|]]|] h1]; try reflexivity.
  destruct ref as [ref|]; try reflexivity. simpl. unfold bind, ret.
  destruct (getTree host f ref h1) as [[[tree [e2|]]|] h2]; try reflexivity.
  simpl. unfold bind, ret.
  destruct (pushCommit host f ref tree h2) as [[[e3|]|] h3]; try reflexivity.
  simpl. unfold createPR, bind, call, ret.
  destruct (PullRequests_Create _ _ _ _ _) as [pr [e4|]]; reflexivity.
Qed.

Lemma advance_emits (host : Host) (f : pullRequestCommand) (s : JobState) (st : Step) :
  pending s = Some st ->
  emits (fun h => h) (step_call (cmd_options f) st) (advance host f s).
Proof.
  destruct s; simpl; intros H; inversion H; subst; clear H.
  - apply emits_bind; [apply getRef_emits|].
    intros [[ref|] [e|]]; apply emits_ret.
  - apply emits_bind; [apply getTree_emits|].
    intros [tree [e|]]; apply emits_ret.
  - apply emits_bind; [apply pushCommit_emits|].
    intros [e|]; apply emits_ret.
  - apply emits_bind; [apply createPR_emits|].
    intros [url [e|]]; apply emits_ret.
Qed.

Lemma advance_failure_step (host : Host) (f : pullRequestCommand) (s : JobState)
    (h h' : History) (st : Step) (e : error) :
  advance host f s h = (Some (Failed st e), h') ->
  pending s = Some st \/ s = Failed st e.
Proof.
  destruct s; simpl; unfold bind, ret.
  - destruct (getRef f h) as [[[[ref|] [e1|]]|] h1]; intros H; inversion H; now left.
  - destruct (getTree host f ref h) as [[[tree [e1|]]|] h1]; intros H; inversion H; now left.
  - destruct (pushCommit host f ref tree h) as [[[e1|]|] h1]; intros H; inversion H; now left.
  - destruct (createPR f h) as [[[url [e1|]]|] h1]; intros H; inversion H; now left.
  - intros H; inversion H.
  - intros H; inversion H; now right.
Qed.

Lemma run_job_terminal (host : Host) (f : pullRequestCommand) (h h' : History) (s : JobState) :
  run_job host f h = (Some s, h') -> pending s = None.
Proof.
  unfold run_job, bind. simpl. unfold bind, ret.
  destruct (getRef f h) as [[[[ref|] [e1|]]|] h1]; simpl;
    try (intros H; inversion H; reflexivity).
  unfold bind, ret.
  destruct (getTree host f ref h1) as [[[tree [e2|]]|] h2]; simpl;
    try (intros H; inversion H; reflexivity).
  unfold bind, ret.
  destruct (pushCommit host f ref tree h2) as [[[e3|]|] h3]; simpl;
    try (intros H; inversion H; reflexivity).
  unfold bind, ret.
  destruct (createPR f h3) as [[[url [e4|]]|] h4]; simpl;
    intros H; inversion H; reflexivity.
Qed.

(** C7.  A job is a run of the state machine
    Init -> RefResolved -> TreeBuilt -> CommitPublished -> PRCreated:
    [do] returns what four transitions from [Init] lead to, and these end
    in a terminal state; a transition makes only the calls of the step
    that is pending (reference, then tree, then commit, then pull
    request); a failure is the failure of the pending step; and in a
    terminal state ([Failed] or [PRCreated]) nothing more is called. *)
Theorem do_state_machine (host : Host) (f : pullRequestCommand) :
  (forall h, do host f h = (s <- run_job host f ;; ret (job_result s)) h) /\
  (forall h h' s, run_job host f h = (Some s, h') -> pending s = None) /\
  (forall s, match pending s with
             | Some st => emits (fun h => h) (step_call (cmd_options f) st) (advance host f s)
             | None => forall h, advance host f s h = (Some s, h)
             end) /\
  (forall s h h' st e, advance host f s h = (Some (Failed st e), h') ->
                       pending s = Some st \/ s = Failed st e).
Proof.
  split; [exact (do_runs_machine host f)|].
  split; [intros h h' s; apply run_job_terminal|].
  split; [|intros s h h' st e; apply advance_failure_step].
  intros s. destruct (pending s) as [st|] eqn:E.
  - now apply advance_emits.
  - destruct s; simpl in E; try discriminate; reflexivity.
Qed.

(** ** The tree builder *)

(** Whatever the entry, the file read is its local path and the name
    returned its target path. *)
Lemma getFileContent_paths (host : Host) (fileArg : string) :
  getFileContent host fileArg
  = ('(b, err) <- ioutil_ReadFile host (local_path fileArg) ;;
     ret (target_path fileArg, b, err)).
Proof.
  unfold getFileContent, local_path, target_path.
  pose proof (Split_nonempty fileArg) as N.
  destruct (strings_Split fileArg ":") as [|f0 [|f1 fs]]; [congruence | reflexivity ..].
Qed.

Lemma blob_entries_length (targets contents : list string) :
  List.length targets = List.length contents ->
  List.length (blob_entries targets contents) = List.length targets.
Proof.
  revert contents; induction targets as [|t ts IH]; intros [|b bs] H; simpl in *;
    try reflexivity; try discriminate.
  f_equal. apply IH. now injection H.
Qed.

Lemma load_files_ok (host : Host) (paths : list string) (h h' : History)
    (contents : list string) :
  load_files host paths h = (inl contents, h') ->
  h' = (rev (map FileRead paths) ++ h)%list /\ List.length contents = List.length paths.
Proof.
  revert h contents; induction paths as [|p ps IH]; intros h contents; simpl.
  - intros H; inversion H; subst. now split.
  - destruct (fs_read host h p) as [b [[op cause]|]]; [discriminate|].
    destruct (load_files host ps (FileRead p :: h)) as [[bs|e] h1] eqn:E; [|discriminate].
    intros H; inversion H; subst. destruct (IH _ _ E) as [-> L].
    split; [now rewrite <- app_assoc | simpl; now rewrite L].
Qed.

Lemma load_files_error (host : Host) (paths : list string) (h h' : History) (e : error) :
  load_files host paths h = (inr e, h') ->
  exists pre p post op cause,
    paths = (pre ++ p :: post)%list /\ e = PathError op p cause /\
    h' = (FileRead p :: rev (map FileRead pre) ++ h)%list.
Proof.
  revert h; induction paths as [|p ps IH]; intros h; simpl; [discriminate|].
  destruct (fs_read host h p) as [b [[op cause]|]].
  - intros H; inversion H; subst. now exists [], p, ps, op, cause.
  - destruct (load_files host ps (FileRead p :: h)) as [[bs|e'] h1] eqn:E; [discriminate|].
    intros H; inversion H; subst.
    destruct (IH _ E) as (pre & q & post & op & cause & -> & -> & ->).
    exists (p :: pre), q, post, op, cause. repeat split. simpl. now rewrite <- app_assoc.
Qed.

(** The loop of [getTree] reads the local paths in order and collects one
    blob entry per file. *)
Lemma getTree_range_loads (host : Host) (fileArgs : list string) (entries : list TreeEntry)
    (h : History) :
  getTree_range host fileArgs entries h =
  match load_files host (map local_path fileArgs) h with
  | (inl contents, h') =>
      (Some (inl (entries ++ blob_entries (map target_path fileArgs) contents)%list), h')
  | (inr e, h') => (Some (inr e), h')
  end.
Proof.
  revert entries h; induction fileArgs as [|a rest IH]; intros entries h; simpl.
  - now rewrite app_nil_r.
  - rewrite getFileContent_paths. unfold bind, ioutil_ReadFile, call, ret.
    destruct (fs_read host h (local_path a)) as [b [[op cause]|]]; [reflexivity|].
    rewrite IH.
    destruct (load_files host (map local_path rest) _) as [[bs|e] h1]; [|reflexivity].
    simpl. now rewrite <- app_assoc.
Qed.

(** C8.  [getTree] reads the local file of every mapping, in order.  If
    one cannot be read it returns the read error, which names that local
    path, and has made no call but the reads up to that file.  Otherwise
    it asks for one tree on top of the commit the reference points at,
    with one entry per mapping: the target path, type "blob", the bytes
    read as inline content, mode "100644"; and it returns the answer. *)
Theorem getTree_builds (host : Host) (f : pullRequestCommand) (ref : Reference) (h : History) :
  let o := cmd_options f in
  let paths := map local_path (pr_Files o) in
  match load_files host paths h with
  | (inr e, h') =>
      getTree host f ref h = (Some (None, Some e), h') /\
      exists pre p post op cause,
        paths = (pre ++ p :: post)%list /\ e = PathError op p cause /\
        h' = (FileRead p :: rev (map FileRead pre) ++ h)%list
  | (inl contents, h') =>
      let entries := blob_entries (map target_path (pr_Files o)) contents in
      h' = (rev (map FileRead paths) ++ h)%list /\
      List.length entries = List.length (pr_Files o) /\
      match ref_sha ref with
      | Some sha =>
          getTree host f ref h =
            (Some (Git_CreateTree (cmd_client f) h' (SourceOwner o) (SourceRepo o) sha entries),
             GitCreateTree (SourceOwner o) (SourceRepo o) sha entries :: h')
      | None => getTree host f ref h = (None, h')
      end
  end.
Proof.
  cbv zeta. unfold getTree, bind. rewrite getTree_range_loads.
  destruct (load_files host _ h) as [[contents|e] h'] eqn:E.
  - destruct (load_files_ok _ _ _ _ _ E) as [Hh L]. rewrite length_map in L.
    split; [exact Hh|]. split.
    + rewrite blob_entries_length; rewrite !length_map; [reflexivity | now symmetry].
    + simpl. unfold ref_sha, deref, ret, panic, call.
      destruct (Reference_Object ref) as [obj|]; [|reflexivity].
      destruct (GitObject_SHA obj) as [sha|]; reflexivity.
  - split; [reflexivity|]. exact (load_files_error _ _ _ _ _ E).
Qed.

Example getTree_demo :
  let f := mkPullRequestCommand (jobOptions demo_batch (mkDestination "r1" "main")) demo_client in
  let g := mkPullRequestCommand
             (jobOptions (mkBatchPullRequestOption "m" "s" "b" [] ["a:x/y"; "missing"; "a.txt"]
                            "" "" "feature/x") (mkDestination "r1" "main")) demo_client in
  let ref := mkReference (Some "refs/heads/feature/x") None
               (Some (mkGitObject None (Some "main-of-r1") None)) None in
  getTree demo_host f ref [] =
    (Some (Some (mkTree (Some "tree-of-r1") [blob_entry "README.md" "# mkpr"]), None),
     [GitCreateTree "mercadolibre" "r1" "main-of-r1" [blob_entry "README.md" "# mkpr"];
      FileRead "README.md"]) /\
  getTree demo_host g ref [] =
    (Some (None, Some (PathError "open" "missing" (errors_New "no such file or directory"))),
     [FileRead "missing"; FileRead "a"]).
Proof. split; reflexivity. Qed.

(** ** The batch *)

(** Steps of [Do] that leave the history alone. *)
Lemma emits_get_this (P : Call -> Prop) : emits hist P get_this.
Proof. intros s. exists []. split; [reflexivity | constructor]. Qed.

Lemma emits_get_urls (P : Call -> Prop) : emits hist P get_urls.
Proof. intros s. exists []. split; [reflexivity | constructor]. Qed.

Lemma emits_set_urls (P : Call -> Prop) (us : list string) : emits hist P (set_urls us).
Proof. intros s. exists []. split; [reflexivity | constructor]. Qed.

Lemma emits_set_author (P : Call -> Prop) (name email : string) :
  emits hist P (set_author name email).
Proof. intros s. exists []. split; [reflexivity | constructor]. Qed.

Lemma Do_func_emits (host : Host) (P : Call -> Prop) (f : BatchPullRequestCommand)
    (o : pullRequestCreationOptions) :
  (forall c, job_call o c -> P c) ->
  emits hist P (Do_func host f o).
Proof.
  intros HP. unfold Do_func.
  apply emits_bind.
  - apply emits_on_hist. eapply emits_weaken; [exact HP|]. apply (do_emits host).
  - intros [prURL err]. apply emits_bind; [|intros _; apply emits_ret].
    destruct (prURL =? "")%string; [apply emits_ret|].
    apply emits_bind; [apply emits_get_urls | intros us; apply emits_set_urls].
Qed.

Lemma for_each_emits {S} (hist_of : S -> History) (P : Call -> Prop)
    (f : pullRequestCreationOptions -> M S (option error))
    (os : list pullRequestCreationOptions) :
  Forall (fun o => emits hist_of P (f o)) os ->
  emits hist_of P (for_each f os).
Proof.
  induction 1 as [|o os Ho _ IH]; simpl; [apply emits_ret|].
  apply emits_bind; [exact Ho|].
  intros [e|]; [apply emits_ret | exact IH].
Qed.

(** [Range] visits the expansion of the batch, in order, until the
    callback returns an error. *)
Lemma Range_from_for_each {S} (b : BatchPullRequestOption)
    (f : pullRequestCreationOptions -> M S (option error)) (ds : list Destination) :
  Range_from b f ds = for_each f (map (jobOptions b) ds).
Proof. induction ds as [|v ds IH]; simpl; [reflexivity | now rewrite IH]. Qed.

Lemma Range_expand {S} (b : BatchPullRequestOption)
    (f : pullRequestCreationOptions -> M S (option error)) :
  Range b f = for_each f (expand b).
Proof. apply Range_from_for_each. Qed.

(** Owner and force flag of the calls made for a job out of [expand]. *)
Lemma job_call_expand (b : BatchPullRequestOption) (v : Destination) (c : Call) :
  job_call (jobOptions b v) c ->
  ~ is_UsersGet c /\ not_forced c /\
  (call_owner c = None \/ call_owner c = Some "mercadolibre") /\
  (call_repo c = None \/ call_repo c = Some (Repository v)).
Proof.
  destruct c; simpl; intuition (subst; auto).
Qed.

(** What [Do] does after the user lookup succeeded with [u]. *)
Lemma Do_unfold (host : Host) (s : DoState) :
  Do host s =
  match Users_Get (client (this s)) (hist s) "" with
  | (_, Some e) =>
      (Some ([], Some e), mkDoState (this s) (urls s) (UsersGet "" :: hist s))
  | (u, None) =>
      let f := mkBatchPullRequestCommand
                 (with_author (options (this s)) (GetName u) (GetEmail u))
                 (client (this s)) in
      (err <- for_each (Do_func host f) (expand (options f)) ;;
       us <- get_urls ;;
       ret (us, err))
        (mkDoState f [] (UsersGet "" :: hist s))
  end.
Proof.
  unfold Do, bind at 1. simpl. unfold bind at 1. unfold on_hist, call. simpl.
  destruct (Users_Get _ _ _) as [u [e|]]; [reflexivity|].
  unfold bind at 1. simpl. unfold bind at 1. simpl. unfold bind at 1. simpl.
  rewrite Range_expand. reflexivity.
Qed.

(** The calls of a batch run: the user lookup, then calls of the jobs. *)
Lemma Do_emits_jobs (host : Host) (P : Call -> Prop) (s : DoState) :
  (forall b v c, Destinations b = Destinations (options (this s)) ->
                 In v (Destinations b) -> job_call (jobOptions b v) c -> P c) ->
  exists jobs,
    hist (snd (Do host s)) = (jobs ++ UsersGet "" :: hist s)%list /\ Forall P jobs.
Proof.
  intros HP. rewrite Do_unfold.
  destruct (Users_Get _ _ _) as [u [e|]].
  - exists []. split; [reflexivity | constructor].
  - cbv zeta.
    set (f := mkBatchPullRequestCommand _ _).
    assert (E : emits hist P (err <- for_each (Do_func host f) (expand (options f)) ;;
                              us <- get_urls ;; ret (us, err))).
    { apply emits_bind.
      - apply for_each_emits. unfold expand. apply Forall_map. apply Forall_forall.
        intros v Hv. apply Do_func_emits. intros c Hc.
        exact (HP (options f) v c eq_refl Hv Hc).
      - intros err. apply emits_bind; [apply emits_get_urls | intros us; apply emits_ret]. }
    destruct (E (mkDoState f [] (UsersGet "" :: hist s))) as (jobs & Hh & HF).
    exists jobs. split; [exact Hh | exact HF].
Qed.

(** C10.  Every remote call of a batch run that names a repository owner
    names "mercadolibre", whatever the batch description says; the
    description decides only which repository of that owner a call goes
    to: one of its destinations. *)
Theorem Do_calls_fixed_owner (host : Host) (s : DoState) :
  exists new,
    hist (snd (Do host s)) = (new ++ hist s)%list /\
    Forall (fun c =>
              (call_owner c = None \/ call_owner c = Some "mercadolibre") /\
              (call_repo c = None \/
               exists v, In v (Destinations (options (this s))) /\
                         call_repo c = Some (Repository v))) new.
Proof.
  destruct (Do_emits_jobs host
              (fun c => (call_owner c = None \/ call_owner c = Some "mercadolibre") /\
                        (call_repo c = None \/
                         exists v, In v (Destinations (options (this s))) /\
                                   call_repo c = Some (Repository v))) s)
    as (jobs & Hh & HF).
  - intros b v c Hb Hv Hc. destruct (job_call_expand b v c Hc) as (_ & _ & Ho & [Hr|Hr]).
    + split; [exact Ho | now left].
    + split; [exact Ho|]. right. exists v. rewrite <- Hb. now split.
  - exists (jobs ++ [UsersGet ""])%list. split.
    + rewrite Hh. now rewrite <- app_assoc.
    + apply Forall_app. split; [exact HF|].
      constructor; [|constructor]. simpl. split; now left.
Qed.

(** The same for a single job, whatever its options: the branch is always
    created under "mercadolibre", the other calls go to the owners the
    options name. *)
Lemma do_calls_owner (host : Host) (f : pullRequestCommand) :
  SourceOwner (cmd_options f) = "mercadolibre" ->
  PullRequestOwner (cmd_options f) = "mercadolibre" ->
  emits (fun h => h)
        (fun c => call_owner c = None \/ call_owner c = Some "mercadolibre")
        (do host f).
Proof.
  intros HS HP. eapply emits_weaken; [|apply (do_emits host f)].
  intros c. destruct c; simpl; rewrite ?HS, ?HP; intuition (subst; auto).
Qed.

(** In a whole batch run, too, no reference update is ever forced. *)
Lemma Do_never_forces (host : Host) (s : DoState) :
  exists new, hist (snd (Do host s)) = (new ++ hist s)%list /\ Forall not_forced new.
Proof.
  destruct (Do_emits_jobs host not_forced s) as (jobs & Hh & HF).
  - intros b v c _ _ Hc. now destruct (job_call_expand b v c Hc) as (_ & H & _).
  - exists (jobs ++ [UsersGet ""])%list. split.
    + rewrite Hh. now rewrite <- app_assoc.
    + apply Forall_app. split; [exact HF | repeat constructor].
Qed.

(** *** The description is not changed *)

Lemma Do_func_this (host : Host) (f : BatchPullRequestCommand)
    (o : pullRequestCreationOptions) (s : DoState) :
  this (snd (Do_func host f o s)) = this s.
Proof.
  unfold Do_func, bind, on_hist.
  destruct (do host _ (hist s)) as [[[url err]|] h1]; simpl; [|reflexivity].
  destruct (url =? "")%string; reflexivity.
Qed.

Lemma for_each_this (host : Host) (f : BatchPullRequestCommand)
    (os : list pullRequestCreationOptions) (s : DoState) :
  this (snd (for_each (Do_func host f) os s)) = this s.
Proof.
  revert s; induction os as [|o os IH]; intros s; simpl; [reflexivity|].
  unfold bind. pose proof (Do_func_this host f o s) as H.
  destruct (Do_func host f o s) as [[[e|]|] s1]; simpl in *; try exact H.
  now rewrite IH.
Qed.

(** The command after [Do]: the author identity is filled in when the
    user lookup succeeded, and nothing else is touched. *)
Lemma Do_this (host : Host) (s : DoState) :
  this (snd (Do host s)) =
  match Users_Get (client (this s)) (hist s) "" with
  | (_, Some _) => this s
  | (u, None) =>
      mkBatchPullRequestCommand
        (with_author (options (this s)) (GetName u) (GetEmail u)) (client (this s))
  end.
Proof.
  rewrite Do_unfold.
  destruct (Users_Get _ _ _) as [u [e|]]; [reflexivity|].
  cbv zeta. unfold bind at 1.
  set (f := mkBatchPullRequestCommand _ _).
  set (s1 := mkDoState f [] _).
  pose proof (for_each_this host f (expand (options f)) s1) as H.
  destruct (for_each (Do_func host f) (expand (options f)) s1) as [[err|] s2];
    simpl in *; exact H.
Qed.

(** C9.  Running the batch changes nothing of the description but the
    author identity: commit message, subject, body, head branch, file
    mappings and destinations are after [Do] what they were before,
    however the run ends. *)
Theorem Do_keeps_description (host : Host) (s : DoState) :
  let b := options (this s) in
  let b' := options (this (snd (Do host s))) in
  CommitMessage b' = CommitMessage b /\
  Subject b' = Subject b /\
  Body b' = Body b /\
  Head b' = Head b /\
  Files b' = Files b /\
  Destinations b' = Destinations b.
Proof.
  cbv zeta. rewrite Do_this.
  destruct (Users_Get _ _ _) as [u [e|]]; simpl; repeat split.
Qed.

(** *** Expansion *)

Lemma expand_nth (b : BatchPullRequestOption) (i : nat) (v : Destination) :
  nth_error (Destinations b) i = Some v ->
  nth_error (expand b) i =
  Some {| SourceOwner        := "mercadolibre";
          PullRequestOwner   := "mercadolibre";
          SourceRepo         := Repository v;
          BaseBranch         := Base v;
          pr_CommitMessage   := CommitMessage b;
          CommitBranch       := Head b;
          PullRequestRepo    := Repository v;
          PullRequestBranch  := Base v;
          PullRequestSubject := Subject b;
          PullRequestBody    := Body b;
          pr_Files           := Files b;
          AuthorName         := authorName b;
          AuthorEmail        := authorEmail b |}.
Proof. intros H. unfold expand. rewrite nth_error_map, H. reflexivity. Qed.

(** C6.  A batch run makes the user lookup first and once: the history
    it leaves is the lookup followed by calls of jobs, none of which is a
    user lookup.  When the lookup answers [u], the jobs are run over the
    expansion of the description with [u]'s name and e-mail as author;
    the expansion has one element per destination, in order, which takes
    repository and base branch from the destination and everything else
    from the description; and [Range] hands these elements to its
    callback in order (as long as the callback returns no error). *)
Theorem Do_expands_after_one_lookup (host : Host) (s : DoState) :
  (exists jobs,
     hist (snd (Do host s)) = (jobs ++ UsersGet "" :: hist s)%list /\
     Forall (fun c => ~ is_UsersGet c) jobs) /\
  Do host s =
    match Users_Get (client (this s)) (hist s) "" with
    | (_, Some e) =>
        (Some ([], Some e), mkDoState (this s) (urls s) (UsersGet "" :: hist s))
    | (u, None) =>
        let f := mkBatchPullRequestCommand
                   (with_author (options (this s)) (GetName u) (GetEmail u))
                   (client (this s)) in
        (err <- for_each (Do_func host f) (expand (options f)) ;;
         us <- get_urls ;;
         ret (us, err))
          (mkDoState f [] (UsersGet "" :: hist s))
    end /\
  (forall b,
     List.length (expand b) = List.length (Destinations b) /\
     forall i v,
       nth_error (Destinations b) i = Some v ->
       nth_error (expand b) i =
       Some {| SourceOwner        := "mercadolibre";
               PullRequestOwner   := "mercadolibre";
               SourceRepo         := Repository v;
               BaseBranch         := Base v;
               pr_CommitMessage   := CommitMessage b;
               CommitBranch       := Head b;
               PullRequestRepo    := Repository v;
               PullRequestBranch  := Base v;
               PullRequestSubject := Subject b;
               PullRequestBody    := Body b;
               pr_Files           := Files b;
               AuthorName         := authorName b;
               AuthorEmail        := authorEmail b |}) /\
  (forall b (f : pullRequestCreationOptions -> M DoState (option error)),
     Range b f = for_each f (expand b)).
Proof.
  split; [|split; [apply Do_unfold | split]].
  - apply Do_emits_jobs. intros b v c _ _ Hc.
    now destruct (job_call_expand b v c Hc) as (H & _).
  - intros b. split; [unfold expand; apply length_map | apply expand_nth].
  - intros b f. apply Range_expand.
Qed.

(** *** Partial success *)

Lemma Do_func_runs_job (host : Host) (f : BatchPullRequestCommand)
    (o : pullRequestCreationOptions) (t : BatchPullRequestCommand)
    (us : list string) (h h1 : History) (url : string) (err : option error) :
  do host (mkPullRequestCommand o (client f)) h = (Some (url, err), h1) ->
  Do_func host f o (mkDoState t us h) = (Some err, mkDoState t (us ++ reported [url]) h1).
Proof.
  intros H. unfold Do_func, bind, on_hist. simpl. rewrite H. simpl.
  unfold reported. simpl.
  destruct (url =? "")%string; simpl; [now rewrite app_nil_r | reflexivity].
Qed.

Lemma reported_app (us vs : list string) :
  reported (us ++ vs) = (reported us ++ reported vs)%list.
Proof. apply filter_app. Qed.

(** As long as the jobs succeed, the loop goes on with the next one, from
    the history the previous one left. *)
Lemma for_each_succeeded_prefix (host : Host) (f t : BatchPullRequestCommand)
    (pre rest : list pullRequestCreationOptions) (acc us : list string) (h h1 : History) :
  jobs_succeed host (client f) pre h = Some (us, h1) ->
  for_each (Do_func host f) (pre ++ rest) (mkDoState t acc h)
  = for_each (Do_func host f) rest (mkDoState t (acc ++ reported us) h1).
Proof.
  revert acc us h; induction pre as [|o pre IH]; intros acc us h; simpl.
  - intros H; inversion H; subst. simpl. now rewrite app_nil_r.
  - destruct (do host _ h) as [[[url [e|]]|] h2] eqn:E; try discriminate.
    destruct (jobs_succeed host (client f) pre h2) as [[us' h3]|] eqn:J; [|discriminate].
    intros H; inversion H; subst.
    unfold bind. rewrite (Do_func_runs_job host f o t acc h h2 url None E).
    rewrite (IH _ _ _ J). rewrite <- app_assoc.
    change (url :: us') with ([url] ++ us')%list. now rewrite reported_app.
Qed.

(** C1.  The jobs run one after the other in the order of the
    destinations.  When the jobs of the destinations [pre] succeed and
    the job of the next destination [d] fails with [e], [Do] returns [e]
    together with the URLs of the jobs of [pre], in order, and the
    history ends where the failed job ended: nothing is called for the
    destinations [post] that follow. *)
Theorem Do_partial_success (host : Host) (s : DoState) (u : option User)
    (pre post : list Destination) (d : Destination)
    (us : list string) (h1 h2 : History) (url : string) (e : error) :
  Users_Get (client (this s)) (hist s) "" = (u, None) ->
  Destinations (options (this s)) = (pre ++ d :: post)%list ->
  jobs_succeed host (client (this s))
    (map (jobOptions (with_author (options (this s)) (GetName u) (GetEmail u))) pre)
    (UsersGet "" :: hist s) = Some (us, h1) ->
  do host
     (mkPullRequestCommand
        (jobOptions (with_author (options (this s)) (GetName u) (GetEmail u)) d)
        (client (this s))) h1 = (Some (url, Some e), h2) ->
  Do host s =
    (Some (reported us, Some e),
     mkDoState (mkBatchPullRequestCommand
                  (with_author (options (this s)) (GetName u) (GetEmail u))
                  (client (this s)))
               (reported us) h2).
Proof.
  intros HU HD HJ HF. rewrite Do_unfold, HU. cbv zeta.
  set (b := with_author _ _ _) in *.
  set (f := mkBatchPullRequestCommand b _).
  unfold bind at 1. unfold expand. simpl options.
  replace (Destinations b) with (pre ++ d :: post)%list by (symmetry; exact HD).
  rewrite map_app. simpl map.
  rewrite (for_each_succeeded_prefix host f f _ _ [] us _ h1 HJ).
  simpl for_each. unfold bind at 1.
  rewrite (Do_func_runs_job host f _ f _ h1 h2 url (Some e) HF).
  rewrite (do_error_no_url _ _ _ _ _ _ HF). simpl.
  unfold reported at 2. simpl. rewrite app_nil_r. reflexivity.
Qed.

Lemma Do_partial_success_witness :
  Do demo_host demo_state =
    (Some (["https://github.com/mercadolibre/r1/pull/1"],
           Some (fmt_Errorf_w "unable to create the commit"
                   (fmt_Errorf_w "unable to commit"
                      (errors_New "422 Unprocessable Entity")))),
     snd (Do demo_host demo_state)) /\
  Forall (fun c => call_repo c <> Some "r3") (hist (snd (Do demo_host demo_state))).
Proof.
  split.
  - erewrite (Do_partial_success demo_host demo_state _
                [mkDestination "r1" "main"] [mkDestination "r3" "main"]
                (mkDestination "r2" "main")) at 1;
      [ | reflexivity | reflexivity | vm_compute; reflexivity | vm_compute; reflexivity ].
    reflexivity.
  - vm_compute. repeat constructor; discriminate.
Defined.

(** The partial batch of the demo world, as the command line reports it:
    the URL of the first destination, then the message of the error that
    stopped the second one, whose cause is the API's answer. *)
Example Do_demo_report :
  match fst (Do demo_host demo_state) with
  | Some (done, Some err) =>
      done = ["https://github.com/mercadolibre/r1/pull/1"] /\
      Error err = "unable to create the commit: unable to commit: 422 Unprocessable Entity" /\
      option_map Error (match Unwrap err with Some e => Unwrap e | None => None end)
        = Some "422 Unprocessable Entity"
  | _ => False
  end.
Proof. vm_compute. repeat split. Qed.

(** When every job succeeds, [Do] returns all URLs and no error. *)
Lemma Do_all_succeed (host : Host) (s : DoState) (u : option User)
    (us : list string) (h1 : History) :
  Users_Get (client (this s)) (hist s) "" = (u, None) ->
  jobs_succeed host (client (this s))
    (expand (with_author (options (this s)) (GetName u) (GetEmail u)))
    (UsersGet "" :: hist s) = Some (us, h1) ->
  Do host s =
    (Some (reported us, None),
     mkDoState (mkBatchPullRequestCommand
                  (with_author (options (this s)) (GetName u) (GetEmail u))
                  (client (this s)))
               (reported us) h1).
Proof.
  intros HU HJ. rewrite Do_unfold, HU. cbv zeta.
  set (b := with_author _ _ _) in *.
  set (f := mkBatchPullRequestCommand b _).
  unfold bind at 1. simpl options.
  rewrite <- (app_nil_r (expand b)).
  rewrite (for_each_succeeded_prefix host f f _ _ [] us _ h1 HJ).
  reflexivity.
Qed.

(** * Further properties of the code *)

(** ** Validation: which error is reported *)

Lemma validate_range_first_offender (head : string) (ds : list Destination) (e : error) :
  validate_range head ds = Some e ->
  exists pre v post,
    ds = (pre ++ v :: post)%list /\
    Forall (fun d => Base d <> "" /\ Base d <> head) pre /\
    ((Base v = "" /\
      e = fmt_Errorf ("head branc of destination repository " ++ Repository v ++ " is empty")) \/
     (Base v <> "" /\ Base v = head /\
      e = fmt_Errorf ("base branch cannot be the same as head at repository " ++ Repository v))).
Proof.
  induction ds as [|d ds IH]; simpl; [discriminate|].
  destruct (String.eqb_spec (Base d) "") as [E|E].
  - intros H; inversion H; subst. exists [], d, ds. repeat split; [constructor | now left].
  - destruct (String.eqb_spec head (Base d)) as [E'|E'].
    + intros H; inversion H; subst. exists [], d, ds.
      repeat split; [constructor | right; repeat split; congruence].
    + intros H. destruct (IH H) as (pre & v & post & -> & F & C).
      exists (d :: pre), v, post. repeat split; [constructor; [split; congruence | exact F] | exact C].
Qed.

(** X1.  The error of [validate] is about the head branch when that is empty,
    whatever the destinations are; otherwise it is about the first
    destination, in the order of the list, whose base branch is empty or
    is the head branch, and it names that destination's repository. *)
Theorem validate_reports_first_offender (b : BatchPullRequestOption) (e : error) :
  validate b = Some e ->
  (Head b = "" /\ e = errors_New "base branch cannot be empty") \/
  (Head b <> "" /\
   exists pre v post,
     Destinations b = (pre ++ v :: post)%list /\
     Forall (fun d => Base d <> "" /\ Base d <> Head b) pre /\
     ((Base v = "" /\
       e = fmt_Errorf ("head branc of destination repository " ++ Repository v ++ " is empty")) \/
      (Base v <> "" /\ Base v = Head b /\
       e = fmt_Errorf ("base branch cannot be the same as head at repository "
                       ++ Repository v)))).
Proof.
  unfold validate. destruct (String.eqb_spec (Head b) "") as [E|E].
  - intros H; inversion H. now left.
  - intros H. right. split; [exact E|]. now apply validate_range_first_offender.
Qed.

Lemma validate_reports_first_offender_witness :
  validate demo_conflict
  = Some (fmt_Errorf "base branch cannot be the same as head at repository r2").
Proof.
  destruct (validate_reports_first_offender demo_conflict
              (fmt_Errorf "base branch cannot be the same as head at repository r2") eq_refl)
    as [[H _]|[_ _]]; [discriminate H | reflexivity].
Defined.

(** A description that passes validation has a head branch and, in every
    destination, a base branch that is not the head branch. *)
Lemma validate_passed (b : BatchPullRequestOption) :
  validate b = None ->
  Head b <> "" /\ Forall (fun d => Base d <> "" /\ Base d <> Head b) (Destinations b).
Proof.
  unfold validate. destruct (String.eqb_spec (Head b) "") as [E|E]; [discriminate|].
  intros H. split; [exact E|].
  apply Forall_forall. intros d Hd. split; intros C.
  - apply (proj2 (validate_range_fails_iff (Head b) (Destinations b))); [|exact H].
    apply Exists_exists. exists d. split; [exact Hd | now left].
  - apply (proj2 (validate_range_fails_iff (Head b) (Destinations b))); [|exact H].
    apply Exists_exists. exists d. split; [exact Hd | now right].
Qed.

(** ** File mappings: what the paths can be *)

Lemma has_sep_app (s t : string) : has_sep (s ++ t) = has_sep s || has_sep t.
Proof.
  induction s as [|c s IH]; simpl; [reflexivity|]. now rewrite IH, orb_assoc.
Qed.

Lemma split_scan_segments (s cur : string) :
  has_sep cur = false ->
  Forall (fun seg => has_sep seg = false) (split_scan ":" 0 cur s).
Proof.
  revert cur; induction s as [|c s IH]; intros cur H; cbn [split_scan].
  - now constructor.
  - cbn [HasPrefix]. destruct (Ascii.eqb c ":") eqn:E; cbn [andb].
    + replace (HasPrefix s "") with true by now destruct s.
      constructor; [exact H | now apply IH].
    + apply IH. rewrite has_sep_app, H. simpl. now rewrite E.
Qed.

Lemma Split_segments (s : string) :
  Forall (fun seg => has_sep seg = false) (strings_Split s ":").
Proof. now apply split_scan_segments. Qed.

Lemma local_path_no_sep (fileArg : string) : has_sep (local_path fileArg) = false.
Proof.
  unfold local_path. pose proof (Split_segments fileArg) as F.
  destruct (strings_Split fileArg ":") as [|f0 fs]; [reflexivity | now inversion F].
Qed.

Lemma target_path_no_sep (fileArg : string) : has_sep (target_path fileArg) = false.
Proof.
  unfold target_path. pose proof (Split_segments fileArg) as F.
  destruct (strings_Split fileArg ":") as [|f0 [|f1 fs]]; [reflexivity | now inversion F |].
  inversion F as [|? ? _ F']; subst. now inversion F'.
Qed.

(** X2.  For every entry, the empty one included, [getFileContent] reads one
    file and returns the error of that read (the error "empty files" is
    never returned); neither the name of the file it reads nor the target
    name it returns contains the separator. *)
Theorem getFileContent_reads_once (host : Host) (fileArg : string) (h : History) :
  exists path target,
    has_sep path = false /\ has_sep target = false /\
    getFileContent host fileArg h =
      (Some (target, fst (fs_read host h path),
             match snd (fs_read host h path) with
             | Some (op, cause) => Some (PathError op path cause)
             | None => None
             end),
       FileRead path :: h).
Proof.
  exists (local_path fileArg), (target_path fileArg).
  split; [apply local_path_no_sep|]. split; [apply target_path_no_sep|].
  rewrite getFileContent_paths. unfold bind, ioutil_ReadFile, call, ret.
  destruct (fs_read host h (local_path fileArg)) as [b [[op cause]|]]; reflexivity.
Qed.



(** ** Range: which destinations the callback sees *)

Lemma for_each_recording (g : pullRequestCreationOptions -> option error)
    (os seen : list pullRequestCreationOptions) :
  exists visited rest,
    os = (visited ++ rest)%list /\
    Forall (fun o => g o = None) (removelast visited) /\
    match fst (for_each (recording g) os seen) with
    | Some None => rest = [] /\ Forall (fun o => g o = None) visited
    | Some (Some e) => exists o, last visited o = o /\ visited <> [] /\ g o = Some e
    | None => False
    end /\
    snd (for_each (recording g) os seen) = (seen ++ visited)%list.
Proof.
  revert seen; induction os as [|o os IH]; intros seen.
  - exists [], []. simpl. repeat split; try constructor. now rewrite app_nil_r.
  - assert (U : for_each (recording g) (o :: os) seen =
                 match g o with
                 | Some e => (Some (Some e), (seen ++ [o])%list)
                 | None => for_each (recording g) os (seen ++ [o])%list
                 end).
    { cbn [for_each]. unfold bind, recording at 1. now destruct (g o). }
    rewrite U. clear U.
    destruct (g o) as [e|] eqn:G.
    + exists [o], os. simpl. repeat split; try constructor.
      exists o. repeat split; [discriminate | exact G].
    + destruct (IH (seen ++ [o])%list) as (visited & rest & E & F & R & S).
      exists (o :: visited), rest.
      split; [simpl; now rewrite E|].
      split.
      { destruct visited as [|x xs]; [constructor|].
        change (removelast (o :: x :: xs)) with (o :: removelast (x :: xs)).
        now constructor. }
      split.
      { destruct (fst (for_each (recording g) os (seen ++ [o])%list))
          as [[e|]|]; [| |exact R].
        - destruct R as (o' & L & NE & Go'). exists o'.
          repeat split; [|discriminate | exact Go'].
          destruct visited as [|x xs]; [congruence | exact L].
        - destruct R as [-> Fv]. split; [reflexivity | now constructor]. }
      rewrite S. now rewrite <- app_assoc.
Qed.

(** X4.  [Range] calls its callback on the options of the destinations in
    order, up to and including the first one for which the callback
    returns an error, and returns that error; it calls it on all of them,
    and returns nil, when there is no such destination.  (The callback
    here records its arguments and decides by [g].) *)
Theorem Range_stops_at_first_error (b : BatchPullRequestOption)
    (g : pullRequestCreationOptions -> option error) :
  exists visited rest,
    expand b = (visited ++ rest)%list /\
    snd (Range b (recording g) []) = visited /\
    Forall (fun o => g o = None) (removelast visited) /\
    match fst (Range b (recording g) []) with
    | Some None => rest = [] /\ Forall (fun o => g o = None) visited
    | Some (Some e) => exists o, last visited o = o /\ visited <> [] /\ g o = Some e
    | None => False
    end.
Proof.
  rewrite Range_expand.
  destruct (for_each_recording g (expand b) []) as (visited & rest & E & F & R & S).
  exists visited, rest. repeat split; assumption.
Qed.

(** ** What the calls of a job carry *)

Lemma getRef_shape (f : pullRequestCommand) :
  emits (fun h => h) (job_call_shape (cmd_options f)) (getRef f).
Proof.
  unfold getRef. repeat emits_step.
  repeat split. eexists. reflexivity.
Qed.

Lemma Forall_FileRead_shape (o : pullRequestCreationOptions) (ps : list string) :
  incl ps (map local_path (pr_Files o)) ->
  Forall (job_call_shape o) (rev (map FileRead ps)).
Proof.
  intros I. apply Forall_rev. apply Forall_map. apply Forall_forall.
  intros p Hp. simpl. now apply I.
Qed.

Lemma getTree_shape (host : Host) (f : pullRequestCommand) (ref : Reference) :
  emits (fun h => h) (job_call_shape (cmd_options f)) (getTree host f ref).
Proof.
  intros h. unfold getTree, bind. rewrite getTree_range_loads.
  destruct (load_files host _ h) as [[contents|e] h'] eqn:E.
  - destruct (load_files_ok _ _ _ _ _ E) as [-> L]. rewrite length_map in L.
    simpl. unfold deref, ret, panic, call.
    destruct (Reference_Object ref) as [obj|];
      [|eexists; split; [reflexivity | apply Forall_FileRead_shape, incl_refl]].
    destruct (GitObject_SHA obj) as [sha|];
      [|eexists; split; [reflexivity | apply Forall_FileRead_shape, incl_refl]].
    eexists (_ :: _). split; [reflexivity|].
    constructor; [|apply Forall_FileRead_shape, incl_refl].
    simpl. repeat split. exists contents. now split.
  - destruct (load_files_error _ _ _ _ _ E) as (pre & p & post & op & cause & EP & -> & ->).
    exists (FileRead p :: rev (map FileRead pre)). split; [reflexivity|].
    constructor.
    + simpl. rewrite EP. apply in_or_app. right. now left.
    + apply Forall_FileRead_shape. rewrite EP. now apply incl_appl, incl_refl.
Qed.

Lemma pushCommit_shape (host : Host) (f : pullRequestCommand) (ref : Reference)
    (tree : option Tree) :
  emits (fun h => h) (job_call_shape (cmd_options f)) (pushCommit host f ref tree).
Proof.
  unfold pushCommit. repeat emits_step.
  simpl. repeat split; eexists; reflexivity.
Qed.

Lemma createPR_shape (f : pullRequestCommand) :
  emits (fun h => h) (job_call_shape (cmd_options f)) (createPR f).
Proof. unfold createPR. repeat emits_step. Qed.

Lemma do_shape (host : Host) (f : pullRequestCommand) :
  emits (fun h => h) (job_call_shape (cmd_options f)) (do host f).
Proof.
  unfold do.
  apply emits_bind; [apply getRef_shape|].
  intros [ref [e|]]; [apply emits_ret|].
  destruct ref as [ref|]; [|apply emits_ret].
  apply emits_bind; [apply getTree_shape|].
  intros [tree [e|]]; [apply emits_ret|].
  apply emits_bind; [apply pushCommit_shape|].
  intros [e|]; [apply emits_ret | apply createPR_shape].
Qed.

Lemma Do_func_shape (host : Host) (P : Call -> Prop) (f : BatchPullRequestCommand)
    (o : pullRequestCreationOptions) :
  (forall c, job_call_shape o c -> P c) ->
  emits hist P (Do_func host f o).
Proof.
  intros HP. unfold Do_func.
  apply emits_bind.
  - apply emits_on_hist. eapply emits_weaken; [exact HP|]. apply (do_shape host).
  - intros [prURL err]. apply emits_bind; [|intros _; apply emits_ret].
    destruct (prURL =? "")%string; [apply emits_ret|].
    apply emits_bind; [apply emits_get_urls | intros us; apply emits_set_urls].
Qed.

(** Every call of a batch run after the user lookup is a call of the job
    of one of the destinations, made with the options [Range] builds from
    the description and the author the lookup answered. *)
Lemma Do_shape (host : Host) (s : DoState) :
  exists jobs,
    hist (snd (Do host s)) = (jobs ++ UsersGet "" :: hist s)%list /\
    Forall (batch_call_shape (run_description s)) jobs.
Proof.
  rewrite Do_unfold. unfold run_description.
  destruct (Users_Get _ _ _) as [u [e|]].
  - exists []. split; [reflexivity | constructor].
  - cbv zeta. simpl fst.
    set (b := with_author _ _ _).
    set (f := mkBatchPullRequestCommand _ _).
    assert (E : emits hist (batch_call_shape b)
                  (err <- for_each (Do_func host f) (expand (options f)) ;;
                   us <- get_urls ;; ret (us, err))).
    { apply emits_bind.
      - apply for_each_emits. unfold expand. apply Forall_map. apply Forall_forall.
        intros v Hv. apply Do_func_shape. intros c Hc. exists v. now split.
      - intros err. apply emits_bind; [apply emits_get_urls | intros us; apply emits_ret]. }
    destruct (E (mkDoState f [] (UsersGet "" :: hist s))) as (jobs & Hh & HF).
    exists jobs. split; [exact Hh | exact HF].
Qed.

(** The calls of a batch run, the user lookup included. *)
Lemma Do_new_calls (host : Host) (s : DoState) (P : Call -> Prop) :
  P (UsersGet "") ->
  (forall c, batch_call_shape (run_description s) c -> P c) ->
  exists new, hist (snd (Do host s)) = (new ++ hist s)%list /\ Forall P new.
Proof.
  intros PU HP. destruct (Do_shape host s) as (jobs & Hh & HF).
  exists (jobs ++ [UsersGet ""])%list. split.
  - rewrite Hh. now rewrite <- app_assoc.
  - apply Forall_app. split; [|now repeat constructor].
    eapply Forall_impl; [exact HP | exact HF].
Qed.

(** ** What a batch run asks the API for *)

(** X5.  Every pull request a run of a validated batch asks for goes to a
    repository of one of the destinations, from the head branch of the
    description into the base branch of that destination, which is a
    different branch, with the subject and body of the description and
    with maintainers allowed to modify. *)
Theorem Do_pull_requests (host : Host) (s : DoState) :
  validate (options (this s)) = None ->
  exists new,
    hist (snd (Do host s)) = (new ++ hist s)%list /\
    Forall (fun c =>
              match c with
              | PullRequestsCreate owner repo pull =>
                  exists v,
                    In v (Destinations (options (this s))) /\
                    owner = "mercadolibre" /\ repo = Repository v /\
                    pull = {| NewPullRequest_Title := Some (Subject (options (this s)));
                              NewPullRequest_Head := Some (Head (options (this s)));
                              NewPullRequest_Base := Some (Base v);
                              NewPullRequest_Body := Some (Body (options (this s)));
                              NewPullRequest_MaintainerCanModify := Some true |} /\
                    Head (options (this s)) <> "" /\ Base v <> "" /\
                    Base v <> Head (options (this s))
              | _ => True
              end) new.
Proof.
  intros V. destruct (validate_passed _ V) as [HH HD].
  apply Do_new_calls; [exact I|].
  intros c (v & Hv & Hc). destruct c; try exact I.
  simpl in Hc. destruct Hc as (-> & -> & ->).
  simpl in Hv. exists v. repeat split; try assumption.
  - exact (proj1 (proj1 (Forall_forall _ _) HD v Hv)).
  - exact (proj2 (proj1 (Forall_forall _ _) HD v Hv)).
Qed.

Lemma Do_pull_requests_witness :
  exists new,
    hist (snd (Do demo_host demo_state)) = (new ++ [])%list /\
    Forall (fun c => match c with
                     | PullRequestsCreate _ _ pull =>
                         NewPullRequest_Head pull = Some "feature/x" /\
                         NewPullRequest_Base pull = Some "main"
                     | _ => True
                     end) new.
Proof.
  destruct (Do_pull_requests demo_host demo_state eq_refl) as (new & E & F).
  exists new. split; [exact E|].
  eapply Forall_impl; [|exact F].
  intros c Hc. destruct c; try exact I.
  destruct Hc as (v & Hv & _ & _ & -> & _). simpl. split; [reflexivity|].
  simpl in Hv. destruct Hv as [<-|[<-|[<-|[]]]]; reflexivity.
Defined.

(** X6.  Every commit a batch run asks for has the commit message of the
    description, the name and e-mail the user lookup answered as author
    (with the time of the clock as date), no committer and no SHA of its
    own, and one parent. *)
Theorem Do_commits (host : Host) (s : DoState) :
  exists new,
    hist (snd (Do host s)) = (new ++ hist s)%list /\
    Forall (fun c =>
              match c with
              | GitCreateCommit _ _ commit =>
                  Commit_Message commit = Some (CommitMessage (options (this s))) /\
                  (exists date,
                     Commit_Author commit =
                     Some {| CommitAuthor_Date := Some date;
                             CommitAuthor_Name :=
                               Some (GetName (fst (Users_Get (client (this s)) (hist s) "")));
                             CommitAuthor_Email :=
                               Some (GetEmail (fst (Users_Get (client (this s)) (hist s) ""))) |}) /\
                  Commit_Committer commit = None /\
                  Commit_SHA commit = None /\
                  exists parent, Commit_Parents commit = [parent]
              | _ => True
              end) new.
Proof.
  apply Do_new_calls; [exact I|].
  intros c (v & Hv & Hc). destruct c; try exact I.
  simpl in Hc. destruct Hc as (_ & _ & HS & HK & HM & HA & HP).
  repeat split; assumption.
Qed.

Lemma blob_entries_shape (targets contents : list string) :
  List.length contents = List.length targets ->
  map TreeEntry_Path (blob_entries targets contents) = map Some targets /\
  map TreeEntry_Content (blob_entries targets contents) = map Some contents /\
  Forall (fun e => TreeEntry_Mode e = Some "100644" /\ TreeEntry_Type e = Some "blob" /\
                   TreeEntry_SHA e = None)
         (blob_entries targets contents).
Proof.
  revert contents; induction targets as [|t ts IH]; intros [|b bs] H; simpl in *;
    try discriminate; try (repeat split; constructor).
  injection H as H. destruct (IH bs H) as (P & C & F).
  rewrite P, C. repeat split. constructor; [now repeat split | exact F].
Qed.

(** X7.  Every tree a batch run asks for has one entry per file mapping of the
    description, in order, under the target path of the mapping, which
    contains no separator; every entry is a blob of mode "100644" with
    inline content and no SHA. *)
Theorem Do_trees (host : Host) (s : DoState) :
  exists new,
    hist (snd (Do host s)) = (new ++ hist s)%list /\
    Forall (fun c =>
              match c with
              | GitCreateTree _ _ _ entries =>
                  map TreeEntry_Path entries
                  = map (fun fileArg => Some (target_path fileArg)) (Files (options (this s))) /\
                  Forall (fun e =>
                            TreeEntry_Mode e = Some "100644" /\
                            TreeEntry_Type e = Some "blob" /\
                            TreeEntry_SHA e = None /\
                            (exists content, TreeEntry_Content e = Some content) /\
                            exists target, TreeEntry_Path e = Some target /\
                                           has_sep target = false) entries
              | _ => True
              end) new.
Proof.
  apply Do_new_calls; [exact I|].
  intros c (v & Hv & Hc). destruct c; try exact I.
  simpl in Hc. destruct Hc as (_ & _ & contents & L & ->).
  assert (L' : List.length contents
               = List.length (map target_path (Files (options (this s)))))
    by (rewrite length_map; exact L).
  destruct (blob_entries_shape _ _ L') as (P & C & F).
  split; [rewrite P; now rewrite map_map|].
  clear P C F L'. revert contents L.
  induction (Files (options (this s))) as [|fa fs IH]; intros [|b bs] L; simpl in *;
    try discriminate; constructor.
  - repeat split; [now exists b|]. exists (target_path fa). split; [reflexivity|].
    apply target_path_no_sep.
  - apply IH. now injection L.
Qed.

(** X8.  A batch run looks up only the head branch of the description and the
    base branches of its destinations, the only references it creates are
    named after the head branch, and the only files it reads are the
    local paths of the file mappings. *)
Theorem Do_refs_and_reads (host : Host) (s : DoState) :
  exists new,
    hist (snd (Do host s)) = (new ++ hist s)%list /\
    Forall (fun c =>
              match c with
              | GitGetRef _ _ ref =>
                  ref = "refs/heads/" ++ Head (options (this s)) \/
                  exists v, In v (Destinations (options (this s))) /\
                            ref = "refs/heads/" ++ Base v
              | GitCreateRef _ _ newRef =>
                  exists r, newRef = Some r /\
                            Reference_Ref r = Some ("refs/heads/" ++ Head (options (this s)))
              | FileRead path =>
                  In path (map local_path (Files (options (this s)))) /\
                  has_sep path = false
              | _ => True
              end) new.
Proof.
  apply Do_new_calls; [exact I|].
  intros c (v & Hv & Hc). destruct c; try exact I; simpl in Hc.
  - destruct Hc as (_ & _ & [->| ->]); [now left | right; now exists v].
  - destruct Hc as (_ & _ & base & ->). eexists. split; reflexivity.
  - split; [exact Hc|]. apply in_map_iff in Hc. destruct Hc as (fa & <- & _).
    apply local_path_no_sep.
Qed.

(** ** The batch: edges and converses *)

(** X9.  When the user lookup fails, [Do] returns its error and no URL, has
    made no other call, and leaves the command as it was. *)
Theorem Do_lookup_failure (host : Host) (s : DoState) (u : option User) (e : error) :
  Users_Get (client (this s)) (hist s) "" = (u, Some e) ->
  Do host s = (Some ([], Some e), mkDoState (this s) (urls s) (UsersGet "" :: hist s)).
Proof. intros H. rewrite Do_unfold, H. reflexivity. Qed.

Lemma Do_lookup_failure_witness :
  Do demo_host (mkDoState (mkBatchPullRequestCommand demo_batch demo_client_unauthorized) [] [])
  = (Some ([], Some (errors_New "401 Bad credentials")),
     mkDoState (mkBatchPullRequestCommand demo_batch demo_client_unauthorized) []
               [UsersGet ""]).
Proof.
  exact (Do_lookup_failure demo_host
           (mkDoState (mkBatchPullRequestCommand demo_batch demo_client_unauthorized) [] [])
           None (errors_New "401 Bad credentials") eq_refl).
Defined.

(** X10.  Without destinations, [Do] makes the user lookup and nothing else; it
    returns no URL, and the error of the lookup, if any. *)
Theorem Do_no_destinations (host : Host) (s : DoState) :
  Destinations (options (this s)) = [] ->
  fst (Do host s) = Some ([], snd (Users_Get (client (this s)) (hist s) "")) /\
  hist (snd (Do host s)) = UsersGet "" :: hist s.
Proof.
  intros H. rewrite Do_unfold.
  destruct (Users_Get _ _ _) as [u [e|]]; [now split|].
  cbv zeta. unfold expand. simpl options. simpl Destinations. rewrite H. now split.
Qed.

Lemma Do_no_destinations_witness :
  fst (Do demo_host (mkDoState (mkBatchPullRequestCommand zero_options demo_client) [] []))
  = Some ([], None) /\
  hist (snd (Do demo_host (mkDoState (mkBatchPullRequestCommand zero_options demo_client) [] [])))
  = [UsersGet ""].
Proof.
  exact (Do_no_destinations demo_host
           (mkDoState (mkBatchPullRequestCommand zero_options demo_client) [] []) eq_refl).
Defined.

(** X11.  The author identity the command holds before [Do] is never used: two
    commands that differ only in it return the same and make the same
    calls. *)
Theorem Do_ignores_given_author (host : Host) (s : DoState) (name email : string) :
  let s' := mkDoState (mkBatchPullRequestCommand
                         (with_author (options (this s)) name email) (client (this s)))
                      (urls s) (hist s) in
  fst (Do host s') = fst (Do host s) /\
  hist (snd (Do host s')) = hist (snd (Do host s)).
Proof.
  cbv zeta. rewrite !Do_unfold. simpl this. simpl client. simpl hist.
  destruct (Users_Get _ _ _) as [u [e|]]; [now split|].
  cbv zeta. now split.
Qed.

Lemma reported_nonempty (us : list string) : Forall (fun u => u <> "") (reported us).
Proof.
  unfold reported. apply Forall_forall. intros u Hu.
  apply filter_In in Hu. destruct Hu as [_ Hu].
  intros ->. discriminate Hu.
Qed.

Lemma reported_length (us : list string) : List.length (reported us) <= List.length us.
Proof. unfold reported. apply filter_length_le. Qed.

(** The loop over the jobs adds to [urls] at most one URL per job it ran,
    and no empty one. *)
Lemma for_each_urls (host : Host) (f : BatchPullRequestCommand)
    (os : list pullRequestCreationOptions) (s : DoState) :
  exists more,
    urls (snd (for_each (Do_func host f) os s)) = (urls s ++ more)%list /\
    Forall (fun u => u <> "") more /\ List.length more <= List.length os.
Proof.
  revert s; induction os as [|o os IH]; intros s; simpl.
  - exists []. split; [now rewrite app_nil_r | split; [constructor | simpl; lia]].
  - unfold bind.
    destruct (do host (mkPullRequestCommand o (client f)) (hist s)) as [[[url err]|] h1] eqn:E.
    + pose proof (Do_func_runs_job host f o (this s) (urls s) (hist s) h1 url err E) as R.
      replace (mkDoState (this s) (urls s) (hist s)) with s in R by now destruct s.
      rewrite R.
      destruct err as [e|].
      * exists (reported [url]). cbn -[reported]. split; [reflexivity|]. split;
          [apply reported_nonempty | pose proof (reported_length [url]) as RL; cbn [List.length] in *; lia].
      * destruct (IH (mkDoState (this s) (urls s ++ reported [url]) h1)) as (more & U & F & L).
        exists (reported [url] ++ more)%list. cbn -[reported]. rewrite U. cbn -[reported].
        split; [|split].
        -- now rewrite <- app_assoc.
        -- apply Forall_app. split; [apply reported_nonempty | exact F].
        -- rewrite length_app. pose proof (reported_length [url]) as RL.
           cbn [List.length] in *. lia.
    + exists []. unfold Do_func, bind, on_hist. rewrite E. simpl.
      split; [now rewrite app_nil_r | split; [constructor | simpl; lia]].
Qed.

(** X12.  [Do] returns no empty URL, and at most one URL per destination. *)
Theorem Do_urls_bounded (host : Host) (s : DoState) :
  match fst (Do host s) with
  | Some (done, _) =>
      Forall (fun u => u <> "") done /\
      List.length done <= List.length (Destinations (options (this s)))
  | None => True
  end.
Proof.
  rewrite Do_unfold.
  destruct (Users_Get _ _ _) as [u [e|]]; [simpl; split; [constructor | lia]|].
  cbv zeta. unfold bind at 1.
  set (f := mkBatchPullRequestCommand _ _).
  set (s1 := mkDoState f [] _).
  destruct (for_each_urls host f (expand (options f)) s1) as (more & U & F & L).
  destruct (for_each (Do_func host f) (expand (options f)) s1) as [[err|] s2];
    [|exact I].
  simpl in *. rewrite U. split; [exact F|].
  unfold expand in L. rewrite length_map in L. exact L.
Qed.

(** The loop over the jobs returns nil only when every job succeeded. *)
Lemma for_each_all_succeeded (host : Host) (f t : BatchPullRequestCommand)
    (os : list pullRequestCreationOptions) (acc : list string) (h : History) (d : DoState) :
  for_each (Do_func host f) os (mkDoState t acc h) = (Some None, d) ->
  exists us h1,
    jobs_succeed host (client f) os h = Some (us, h1) /\
    d = mkDoState t (acc ++ reported us) h1.
Proof.
  revert acc h; induction os as [|o os IH]; intros acc h; simpl.
  - unfold ret. intros H; inversion H; subst. exists [], h.
    split; [reflexivity | simpl; now rewrite app_nil_r].
  - unfold bind.
    destruct (do host (mkPullRequestCommand o (client f)) h) as [[[url err]|] h1] eqn:E.
    + rewrite (Do_func_runs_job host f o t acc h h1 url err E).
      destruct err as [e|]; [discriminate|].
      intros H. destruct (IH _ _ H) as (us & h2 & J & ->).
      exists (url :: us), h2. rewrite J. split; [reflexivity|].
      change (url :: us) with ([url] ++ us)%list. rewrite reported_app.
      now rewrite <- app_assoc.
    + unfold Do_func, bind, on_hist. simpl. rewrite E. discriminate.
Qed.

(** X13.  When [Do] returns without error, the job of every destination was
    run, one after the other in the order of the list, and succeeded; the
    URLs returned are theirs, in that order. *)
Theorem Do_success_means_all_jobs (host : Host) (s : DoState)
    (done : list string) (d : DoState) :
  Do host s = (Some (done, None), d) ->
  exists us h1,
    jobs_succeed host (client (this s)) (expand (run_description s))
                 (UsersGet "" :: hist s) = Some (us, h1) /\
    done = reported us /\ hist d = h1.
Proof.
  rewrite Do_unfold. unfold run_description.
  destruct (Users_Get _ _ _) as [u [e|]]; [discriminate|].
  cbv zeta. simpl fst. unfold bind at 1.
  set (b := with_author _ _ _).
  set (f := mkBatchPullRequestCommand b _).
  destruct (for_each (Do_func host f) (expand (options f)) (mkDoState f [] _))
    as [[[e|]|] s2] eqn:E; try discriminate.
  destruct (for_each_all_succeeded host f f _ _ _ _ E) as (us & h1 & J & ->).
  simpl. intros H; inversion H; subst. exists us, h1. now repeat split.
Qed.

Lemma Do_success_means_all_jobs_witness :
  exists us h1,
    jobs_succeed demo_host demo_client
      (expand (run_description
                 (mkDoState (mkBatchPullRequestCommand demo_batch_ok demo_client) [] [])))
      [UsersGet ""] = Some (us, h1) /\
    ["https://github.com/mercadolibre/r1/pull/1";
     "https://github.com/mercadolibre/r3/pull/1"] = reported us.
Proof.
  destruct (Do_success_means_all_jobs demo_host
              (mkDoState (mkBatchPullRequestCommand demo_batch_ok demo_client) [] [])
              ["https://github.com/mercadolibre/r1/pull/1";
               "https://github.com/mercadolibre/r3/pull/1"]
              (snd (Do demo_host
                      (mkDoState (mkBatchPullRequestCommand demo_batch_ok demo_client) [] []))))
    as (us & h1 & J & R & _).
  - vm_compute. reflexivity.
  - exists us, h1. now split.
Defined.

(** ** A job from end to end *)






(** X15.  The reference is updated only after the API created the commit, and
    then to that commit: when [pushCommit] issues the update, it has
    before that looked up the commit the reference points at and created
    a commit with the given tree and that commit as single parent (under
    the SHA the look-up reported); the updated reference has the name of
    the given one and the SHA of the commit the API answered. *)
Theorem pushCommit_advances_to_created_commit (host : Host) (f : pullRequestCommand)
    (ref : Reference) (tree : option Tree) (h : History) :
  exists new,
    snd (pushCommit host f ref tree h) = (new ++ h)%list /\
    forall owner repo updated force rest,
      new = GitUpdateRef owner repo updated force :: rest ->
      exists sha parent pc commit created,
        ref_sha ref = Some sha /\
        Repositories_GetCommit (cmd_client f) h owner repo sha = (Some parent, None) /\
        RepositoryCommit_Commit parent = Some pc /\
        rest = [GitCreateCommit owner repo commit; ReposGetCommit owner repo sha] /\
        Git_CreateCommit (cmd_client f) (ReposGetCommit owner repo sha :: h) owner repo commit
          = (Some created, None) /\
        Commit_Tree commit = tree /\
        Commit_Parents commit = [Commit_set_SHA pc (RepositoryCommit_SHA parent)] /\
        ref_sha updated = Commit_SHA created /\
        Reference_Ref updated = Reference_Ref ref.
Proof.
  unfold pushCommit, bind, call, deref, ret, panic, time_now, ref_sha.
  destruct (Reference_Object ref) as [obj|];
    [|exists []; split; [reflexivity | discriminate]].
  destruct (GitObject_SHA obj) as [sha|];
    [|exists []; split; [reflexivity | discriminate]].
  destruct (Repositories_GetCommit _ h _ _ _) as [parent [e|]] eqn:EP;
    [eexists [_]; split; [reflexivity | discriminate]|].
  destruct parent as [p|];
    [|eexists [_]; split; [reflexivity | discriminate]].
  destruct (RepositoryCommit_Commit p) as [pc|] eqn:EC;
    [|eexists [_]; split; [reflexivity | discriminate]].
  destruct (Git_CreateCommit _ _ _ _ _) as [newCommit [e|]] eqn:EN;
    [eexists [_; _]; split; [reflexivity | discriminate]|].
  destruct newCommit as [nc|];
    [|eexists [_; _]; split; [reflexivity | discriminate]].
  destruct (Git_UpdateRef _ _ _ _ _ _) as [r' e'].
  eexists [_; _; _]. split; [reflexivity|].
  intros owner repo updated force rest H. injection H as <- <- <- <- <-.
  exists sha, p, pc. eexists _, nc.
  split; [reflexivity|]. split; [exact EP|]. split; [exact EC|].
  split; [reflexivity|]. split; [exact EN|]. repeat split.
Qed.

(** X16.  When the commit branch is resolved but a local file cannot be read,
    the job ends with the read error of the first such file, wrapped, and
    has called nothing after the reads; what resolving the branch did
    (possibly creating it) has happened. *)
Theorem do_unreadable_file (host : Host) (f : pullRequestCommand) (h h1 h2 : History)
    (ref : Reference) (e : error) :
  getRef f h = (Some (Some ref, None), h1) ->
  load_files host (map local_path (pr_Files (cmd_options f))) h1 = (inr e, h2) ->
  do host f h =
    (Some ("", Some (fmt_Errorf_w "unable to create the tree based on the provided files" e)),
     h2) /\
  exists pre p post op cause,
    map local_path (pr_Files (cmd_options f)) = (pre ++ p :: post)%list /\
    e = PathError op p cause /\
    h2 = (FileRead p :: rev (map FileRead pre) ++ h1)%list.
Proof.
  intros R L. split; [|exact (load_files_error _ _ _ _ _ L)].
  unfold do, bind. rewrite R. unfold getTree, bind.
  rewrite getTree_range_loads, L. reflexivity.
Qed.

Lemma do_unreadable_file_witness :
  let f := mkPullRequestCommand
             (jobOptions (mkBatchPullRequestOption "m" "s" "b" [] ["a:x/y"; "missing"; "a.txt"]
                            "" "" "feature/x") (mkDestination "r1" "main")) demo_client in
  do demo_host f [] =
    (Some ("", Some (fmt_Errorf_w "unable to create the tree based on the provided files"
                       (PathError "open" "missing" (errors_New "no such file or directory")))),
     [FileRead "missing"; FileRead "a";
      GitCreateRef "mercadolibre" "r1"
        (Some (mkReference (Some "refs/heads/feature/x") None
                 (Some (mkGitObject None (Some "main-of-r1") None)) None));
      GitGetRef "mercadolibre" "r1" "refs/heads/main";
      GitGetRef "mercadolibre" "r1" "refs/heads/feature/x"]).
Proof.
  cbv zeta.
  refine (proj1 (do_unreadable_file demo_host _ [] _ _ _ _ _ _)); vm_compute; reflexivity.
Defined.

(** ** The command *)

Lemma Println_range_out (done : list string) (s : MainState) :
  Println_range done s = (Some tt, mkMainState (stdout s ++ done)%list (mhist s)).
Proof.
  revert s; induction done as [|line rest IH]; intros s; simpl.
  - unfold ret. rewrite app_nil_r. now destruct s.
  - unfold bind, Println. rewrite IH. simpl. now rewrite <- app_assoc.
Qed.

Lemma ParseFile_reads (host : Host) (proc : Process) (path : string) (h : History) :
  exists r, ParseFile host proc path h = (Some r, FileRead path :: h).
Proof.
  unfold ParseFile, bind, ioutil_ReadFile, call, ret.
  destruct (fs_read host h path) as [b [[op cause]|]]; eexists; reflexivity.
Qed.

(** What [run] does once the description is parsed. *)
Lemma run_parsed (host : Host) (proc : Process) (s : MainState)
    (b : BatchPullRequestOption) (err : option error) :
  fst (ParseFile host proc (flag_config proc) (mhist s)) = Some (b, err) ->
  run host proc s =
  match err with
  | Some e => (Some (Some e), mkMainState (stdout s) (FileRead (flag_config proc) :: mhist s))
  | None =>
      if (GITHUB_AUTH_TOKEN proc =? "")%string then
        (Some (Some (errors_New "GITHUB_AUTH_TOKEN not set")),
         mkMainState (stdout s) (FileRead (flag_config proc) :: mhist s))
      else
        match validate b with
        | Some e =>
            (Some (Some e),
             mkMainState (stdout s ++ ["hold ..."])%list
                         (FileRead (flag_config proc) :: mhist s))
        | None =>
            match Do host (mkDoState
                             (mkBatchPullRequestCommand b
                                (oauth2_NewClient proc (GITHUB_AUTH_TOKEN proc)))
                             [] (FileRead (flag_config proc) :: mhist s)) with
            | (Some (done, Some e), d) =>
                (Some (Some e),
                 mkMainState (stdout s ++ "hold ..." :: done)%list (hist d))
            | (Some (done, None), d) =>
                (Some None,
                 mkMainState (stdout s ++ "hold ..." :: done ++ ["done."])%list (hist d))
            | (None, d) =>
                (None, mkMainState (stdout s ++ ["hold ..."])%list (hist d))
            end
        end
  end.
Proof.
  intros P. unfold run, bind at 1. unfold on_mhist.
  destruct (ParseFile_reads host proc (flag_config proc) (mhist s)) as (r & E).
  rewrite E in P. simpl in P. injection P as ->. rewrite E.
  destruct err as [e|]; [reflexivity|].
  destruct (GITHUB_AUTH_TOKEN proc =? "")%string; [reflexivity|].
  unfold bind at 1. unfold Println at 1. cbn [stdout mhist].
  unfold NewBatchPullRequestCommand.
  destruct (validate b) as [e|]; [reflexivity|].
  unfold deref, bind at 1, ret at 1. unfold bind at 1. unfold cmd_Do. cbn [stdout mhist].
  destruct (Do host _) as [[[done err]|] d]; [|reflexivity].
  unfold bind at 1. rewrite Println_range_out. cbn [stdout mhist].
  destruct err as [e|]; [now rewrite <- app_assoc|].
  unfold bind, Println, ret. cbn [stdout mhist].
  now rewrite <- !app_assoc.
Qed.

Lemma main_runs (host : Host) (proc : Process) (s : MainState) :
  flag_v proc = false ->
  main host proc s =
  match run host proc s with
  | (Some (Some e), s1) => (Some tt, mkMainState (stdout s1 ++ [("sorry: " ++ Error e)%string])%list
                                                 (mhist s1))
  | (Some None, s1) => (Some tt, s1)
  | (None, s1) => (None, s1)
  end.
Proof.
  intros V. unfold main. rewrite V. unfold bind.
  destruct (run host proc s) as [[[e|]|] s1]; reflexivity.
Qed.

(** X17.  When the description cannot be read or decoded, the command prints
    the error after "sorry: " and nothing else, and has done nothing but
    read the file named by the flag: the token is not looked at and no
    remote call is made. *)
Theorem main_config_error (host : Host) (proc : Process) (s : MainState)
    (b : BatchPullRequestOption) (e : error) :
  flag_v proc = false ->
  fst (ParseFile host proc (flag_config proc) (mhist s)) = Some (b, Some e) ->
  main host proc s =
    (Some tt, mkMainState (stdout s ++ [("sorry: " ++ Error e)%string])%list
                          (FileRead (flag_config proc) :: mhist s)).
Proof.
  intros V P. rewrite (main_runs _ _ _ V), (run_parsed _ _ _ _ _ P). reflexivity.
Qed.

Lemma main_config_error_witness :
  main demo_machine demo_process_missing_config demo_initial =
    (Some tt, mkMainState ["sorry: open nowhere.yml: no such file or directory"]
                          [FileRead "nowhere.yml"]).
Proof.
  exact (main_config_error demo_machine demo_process_missing_config demo_initial
           zero_options
           (PathError "open" "nowhere.yml" (errors_New "no such file or directory"))
           eq_refl eq_refl).
Defined.

(** X18.  Without a token in the environment, the command prints
    "sorry: GITHUB_AUTH_TOKEN not set" and nothing else, and makes no
    remote call, whatever the description says. *)
Theorem main_missing_token (host : Host) (proc : Process) (s : MainState)
    (b : BatchPullRequestOption) :
  flag_v proc = false ->
  fst (ParseFile host proc (flag_config proc) (mhist s)) = Some (b, None) ->
  GITHUB_AUTH_TOKEN proc = "" ->
  main host proc s =
    (Some tt, mkMainState (stdout s ++ ["sorry: GITHUB_AUTH_TOKEN not set"])%list
                          (FileRead (flag_config proc) :: mhist s)).
Proof.
  intros V P T. rewrite (main_runs _ _ _ V), (run_parsed _ _ _ _ _ P), T. reflexivity.
Qed.

Lemma main_missing_token_witness :
  main demo_machine demo_process_without_token demo_initial =
    (Some tt, mkMainState ["sorry: GITHUB_AUTH_TOKEN not set"] [FileRead "config.yml"]).
Proof.
  exact (main_missing_token demo_machine demo_process_without_token demo_initial
           demo_batch eq_refl eq_refl eq_refl).
Defined.

(** X19.  A description that does not pass validation stops the command before
    any remote call: it prints "hold ..." and the validation error after
    "sorry: ", and has only read the description. *)
Theorem main_invalid_description (host : Host) (proc : Process) (s : MainState)
    (b : BatchPullRequestOption) (e : error) :
  flag_v proc = false ->
  fst (ParseFile host proc (flag_config proc) (mhist s)) = Some (b, None) ->
  GITHUB_AUTH_TOKEN proc <> "" ->
  validate b = Some e ->
  main host proc s =
    (Some tt, mkMainState (stdout s ++ ["hold ..."; ("sorry: " ++ Error e)%string])%list
                          (FileRead (flag_config proc) :: mhist s)).
Proof.
  intros V P T E. rewrite (main_runs _ _ _ V), (run_parsed _ _ _ _ _ P).
  destruct (String.eqb_spec (GITHUB_AUTH_TOKEN proc) "") as [C|_]; [contradiction|].
  rewrite E. cbn [stdout mhist]. now rewrite <- app_assoc.
Qed.

Lemma main_invalid_description_witness :
  main demo_machine demo_process_conflict demo_initial =
    (Some tt,
     mkMainState ["hold ..."; "sorry: base branch cannot be the same as head at repository r2"]
                 [FileRead "config.yml"]).
Proof.
  refine (main_invalid_description demo_machine demo_process_conflict demo_initial
            demo_conflict
            (fmt_Errorf "base branch cannot be the same as head at repository r2")
            eq_refl eq_refl _ eq_refl).
  discriminate.
Defined.

(** X20.  With a valid description and a token, the command prints "hold ...",
    then the URLs [Do] returned, one per line and in order, then either
    "done." when [Do] returned no error or its error after "sorry: "; the
    calls made are the read of the description and those of [Do]. *)
Theorem main_reports (host : Host) (proc : Process) (s : MainState)
    (b : BatchPullRequestOption) (done : list string) (err : option error) (d : DoState) :
  flag_v proc = false ->
  fst (ParseFile host proc (flag_config proc) (mhist s)) = Some (b, None) ->
  GITHUB_AUTH_TOKEN proc <> "" ->
  validate b = None ->
  Do host (mkDoState (mkBatchPullRequestCommand b
                        (oauth2_NewClient proc (GITHUB_AUTH_TOKEN proc)))
                     [] (FileRead (flag_config proc) :: mhist s))
  = (Some (done, err), d) ->
  main host proc s =
    (Some tt,
     mkMainState (stdout s ++ "hold ..." :: done ++
                  [match err with
                   | None => "done."
                   | Some e => ("sorry: " ++ Error e)%string
                   end])%list
                 (hist d)).
Proof.
  intros V P T E D. rewrite (main_runs _ _ _ V), (run_parsed _ _ _ _ _ P).
  destruct (String.eqb_spec (GITHUB_AUTH_TOKEN proc) "") as [C|_]; [contradiction|].
  rewrite E, D. destruct err as [e|]; [|reflexivity].
  cbn [stdout mhist]. rewrite <- app_assoc. reflexivity.
Qed.

Lemma main_reports_witness :
  stdout (snd (main demo_machine demo_process demo_initial)) =
    ["hold ...";
     "https://github.com/mercadolibre/r1/pull/1";
     "sorry: unable to create the commit: unable to commit: 422 Unprocessable Entity"].
Proof.
  pose proof (main_reports demo_machine demo_process demo_initial demo_batch
                ["https://github.com/mercadolibre/r1/pull/1"]
                (Some (fmt_Errorf_w "unable to create the commit"
                         (fmt_Errorf_w "unable to commit"
                            (errors_New "422 Unprocessable Entity"))))
                (snd (Do demo_machine
                        (mkDoState (mkBatchPullRequestCommand demo_batch demo_client) []
                                   [FileRead "config.yml"])))
                eq_refl eq_refl) as H.
  rewrite H; [reflexivity | discriminate | reflexivity | vm_compute; reflexivity].
Defined.

(** ** One destination at a time *)

Lemma for_each_segments (host : Host) (f : BatchPullRequestCommand)
    (os : list pullRequestCreationOptions) (s : DoState) :
  exists segs,
    hist (snd (for_each (Do_func host f) os s)) = (concat (rev segs) ++ hist s)%list /\
    List.length segs <= List.length os /\
    Forall2 (fun seg o => Forall (job_call_shape o) seg) segs (firstn (List.length segs) os).
Proof.
  revert s; induction os as [|o os IH]; intros s; cbn [for_each].
  - exists []. simpl. repeat split; [lia | constructor].
  - unfold bind.
    destruct (Do_func_shape host (job_call_shape o) f o (fun c H => H) s) as (new1 & E1 & F1).
    destruct (Do_func host f o s) as [[[e|]|] s1]; cbn [snd] in E1.
    + exists [new1]. cbn [ret snd rev concat app List.length firstn].
      rewrite app_nil_r. repeat split; [exact E1 | lia | now repeat constructor].
    + destruct (IH s1) as (segs & E & L & F2).
      exists (new1 :: segs). cbn [rev List.length firstn].
      rewrite concat_app. cbn [concat]. rewrite app_nil_r, <- app_assoc, <- E1.
      repeat split; [exact E | lia | now constructor].
    + exists [new1]. cbn [snd rev concat app List.length firstn].
      rewrite app_nil_r. repeat split; [exact E1 | lia | now repeat constructor].
Qed.

(** X21.  The calls of a batch run come one destination at a time: after
    the user lookup, the history is a sequence of blocks, one for each of
    the first destinations of the list, in the order of the list; the
    calls of a block name no repository but the one of its destination,
    and between two blocks nothing is called. *)
Theorem Do_one_destination_at_a_time (host : Host) (s : DoState) :
  exists blocks,
    hist (snd (Do host s)) = (concat (rev blocks) ++ UsersGet "" :: hist s)%list /\
    List.length blocks <= List.length (Destinations (options (this s))) /\
    Forall2 (fun block v =>
               Forall (fun c => call_repo c = None \/ call_repo c = Some (Repository v)) block)
            blocks (firstn (List.length blocks) (Destinations (options (this s)))).
Proof.
  rewrite Do_unfold.
  destruct (Users_Get _ _ _) as [u [e|]].
  - exists []. simpl. repeat split; [lia | constructor].
  - cbv zeta. unfold bind at 1.
    set (b := with_author _ _ _).
    set (f := mkBatchPullRequestCommand b _).
    set (s1 := mkDoState f [] _).
    destruct (for_each_segments host f (expand (options f)) s1) as (segs & E & L & F2).
    exists segs.
    assert (H : hist (snd (bind (for_each (Do_func host f) (expand (options f)))
                                (fun err => us <- get_urls ;; ret (us, err)) s1))
                = (concat (rev segs) ++ hist s1)%list).
    { unfold bind at 1.
      destruct (for_each (Do_func host f) (expand (options f)) s1) as [[a|] s2]; exact E. }
    unfold bind at 1 in H. split; [exact H|]. clear H.
    unfold expand in L, F2. simpl options in L, F2. rewrite length_map in L.
    split; [exact L|].
    rewrite firstn_map in F2.
    remember (firstn (List.length segs) (Destinations b)) as vs eqn:Hvs.
    change (Destinations (options (this s))) with (Destinations b). rewrite <- Hvs.
    clear Hvs E L. revert F2. generalize segs. clear segs.
    induction vs as [|v vs IHv]; intros segs F2; inversion F2; subst; constructor.
    + eapply Forall_impl; [|eassumption].
      intros c Hc. destruct c; simpl in Hc |- *; intuition (subst; auto).
    + now apply IHv.
Qed.
